(** * Book library service: repository and HTTP layer

  A shallow embedding of the in-memory book repository
  ([model/bookRepository]) and of the Express routes that call it,
  with the properties of its specification.

  Conventions of the embedding:
  - a JavaScript [number] that holds an integer is a [Z]; [NaN], the
    only non-integer the code produces itself (from [parseInt]), is the
    [None] of an [option Z];
  - a JavaScript string is a [string] of ASCII characters;
  - [undefined] and [null] are the [None] of an option;
  - the module-level variables [books] and [nextBookId] are the two
    fields of an explicit state that every mutating function threads. *)

From Stdlib Require Import ZArith Ascii String Decimal DecimalString DecimalZ.
From stdpp Require Import base tactics option list strings.

Local Open Scope Z_scope.

(** ** JavaScript primitives the program relies on *)

Module Js.

(** [Array.prototype.slice(start, end)]: a negative index counts from
    the end of the array, an index beyond the length is clamped. *)
Definition relativeIndex (len i : Z) : Z :=
  if i <? 0 then Z.max (len + i) 0 else Z.min i len.

Definition slice {A} (l : list A) (start end_ : Z) : list A :=
  let len := Z.of_nat (length l) in
  let k := relativeIndex len start in
  let final := relativeIndex len end_ in
  take (Z.to_nat (final - k)) (drop (Z.to_nat k) l).

(** [Math.ceil(a / b)] on integers, [b] not zero. *)
Definition ceilDiv (a b : Z) : Z := - ((- a) / b).

(** [String.prototype.toLowerCase], on ASCII letters: the letters A to Z
    are folded, every other character is kept. On a string with a
    character outside ASCII, JavaScript folds more than this. *)
Definition lowerChar (c : ascii) : ascii :=
  let n := N_of_ascii c in
  if ((65 <=? n) && (n <=? 90))%N then ascii_of_N (n + 32) else c.

Fixpoint toLowerCase (s : string) : string :=
  match s with
  | EmptyString => EmptyString
  | String c s' => String (lowerChar c) (toLowerCase s')
  end.

(** [String.prototype.includes]: does [sub] occur in [s]? *)
Fixpoint startsWith (sub s : string) : bool :=
  match sub, s with
  | EmptyString, _ => true
  | String a sub', String b s' => Ascii.eqb a b && startsWith sub' s'
  | String _ _, EmptyString => false
  end.

Fixpoint includes (s sub : string) : bool :=
  startsWith sub s ||
  match s with
  | EmptyString => false
  | String _ s' => includes s' sub
  end.

(** [String(n)] for an integer [n]: its decimal numeral. JavaScript
    writes an integer of absolute value 10^21 or more with an exponent;
    below that bound the two agree. *)
Definition String_ (n : Z) : string := NilZero.string_of_int (Z.to_int n).

(** [parseInt(s, 10)]: leading white space is dropped, then an optional
    sign, then the longest run of decimal digits is read; what follows
    is ignored. No digit at all gives [NaN]. The result here is the
    exact integer; JavaScript rounds it to a double, which is the same
    number up to 2^53. *)
Definition isWhiteSpace (c : ascii) : bool :=
  let n := N_of_ascii c in
  (((9 <=? n) && (n <=? 13)) || (n =? 32))%N.

Fixpoint trimStart (s : string) : string :=
  match s with
  | EmptyString => EmptyString
  | String c s' => if isWhiteSpace c then trimStart s' else s
  end.

Definition digit (c : ascii) : option (uint -> uint) :=
  match c with
  | "0" => Some D0 | "1" => Some D1 | "2" => Some D2 | "3" => Some D3
  | "4" => Some D4 | "5" => Some D5 | "6" => Some D6 | "7" => Some D7
  | "8" => Some D8 | "9" => Some D9
  | _ => None
  end%char.

Fixpoint digits (s : string) : uint :=
  match s with
  | EmptyString => Nil
  | String c s' =>
      match digit c with
      | Some d => d (digits s')
      | None => Nil
      end
  end.

Definition parseDigits (sign : Z) (s : string) : option Z :=
  match digits s with
  | Nil => None
  | d => Some (sign * Z.of_uint d)
  end.

Definition parseInt (s : string) : option Z :=
  match trimStart s with
  | String "-" s' => parseDigits (-1) s'
  | String "+" s' => parseDigits 1 s'
  | s' => parseDigits 1 s'
  end.

(** Truthiness of an optional string ([undefined] and the empty string
    are falsy) and of an optional number ([undefined] and [0] are). *)
Definition truthyString (o : option string) : option string :=
  match o with
  | Some EmptyString => None
  | _ => o
  end.

Definition truthyNumber (o : option Z) : option Z :=
  match o with
  | Some 0 => None
  | _ => o
  end.

(** [a || b] where [a] may be missing. *)
Definition orString (a : option string) (b : string) : string :=
  default b (truthyString a).

Definition orNumber (a : option Z) (b : Z) : Z :=
  default b (truthyNumber a).

End Js.

(** ** interfaces/domain.ts *)

Module IBook.
Record t : Type := mk {
  id : Z;
  title : string;
  author : string;
  yearOfRelease : Z;
  isbn : string;
  isBorrowed : bool
}.
End IBook.

Module IPaginationResult.
Record t : Type := mk {
  totalItems : Z;
  totalPages : Z;
  currentPage : Z;
  pageSize : Z
}.
End IPaginationResult.

(** ** interfaces/http.ts *)

Module IBookCreationData.
Record t : Type := mk {
  title : string;
  author : string;
  yearOfRelease : Z;
  isbn : string
}.
End IBookCreationData.

Module IBookUpdateData.
Record t : Type := mk {
  title : option string;
  author : option string;
  yearOfRelease : option Z;
  isbn : option string
}.
End IBookUpdateData.

Module IBookQuery.
Record t : Type := mk {
  title : option string;
  author : option string;
  year : option string;
  isBorrowed : option string;
  page : option string;
  size : option string
}.
End IBookQuery.

Module IBookResponse.
Record t : Type := mk {
  books : list IBook.t;
  pagination : IPaginationResult.t
}.
End IBookResponse.

(** ** model/bookRepository.ts *)

Module Filters.
(** The object [{ title, author, year, isBorrowed }] the route hands to
    the repository; each member is a query-string value or [undefined]. *)
Record t : Type := mk {
  title : option string;
  author : option string;
  year : option string;
  isBorrowed : option string
}.

Definition none : t := mk None None None None.
End Filters.

Module BookRepository.

(** The two module-level variables. *)
Record state : Type := mkState {
  books : list IBook.t;
  nextBookId : Z
}.

Definition preloaded : list IBook.t := [
  IBook.mk 101 "The Great Gatsby" "F. Scott Fitzgerald" 1925 "978-0743273565" false;
  IBook.mk 102 "To Kill a Mockingbird" "Harper Lee" 1960 "978-0061120084" true;
  IBook.mk 103 "1984" "George Orwell" 1949 "978-0451524935" false;
  IBook.mk 104 "The Hobbit" "J.R.R. Tolkien" 1937 "978-0618260300" false;
  IBook.mk 105 "Dune" "Frank Herbert" 1965 "978-0441172719" true;
  IBook.mk 106 "A Game of Thrones" "George R.R. Martin" 1996 "978-0553103540" false;
  IBook.mk 107 "The Fellowship of the Ring" "J.R.R. Tolkien" 1954 "978-0618346257" true;
  IBook.mk 108 "A Thousand Splendid Suns" "Khaled Hosseini" 2007 "978-1594489501" false;
  IBook.mk 109 "The Martian" "Andy Weir" 2011 "978-0804139021" true;
  IBook.mk 110 "Where the Crawdads Sing" "Delia Owens" 2018 "978-0735219090" false;
  IBook.mk 111 "Gone Girl" "Gillian Flynn" 2012 "978-0307588371" false;
  IBook.mk 112 "The Silent Patient" "Alex Michaelides" 2019 "978-1250301691" true;
  IBook.mk 113 "The Nightingale" "Kristin Hannah" 2015 "978-0312577239" false;
  IBook.mk 114 "The Book Thief" "Markus Zusak" 2005 "978-0375842207" false;
  IBook.mk 115 "The Old Man and the Sea" "Ernest Hemingway" 1952 "978-0684801223" true;
  IBook.mk 116 "Of Mice and Men" "John Steinbeck" 1937 "978-0140177398" false;
  IBook.mk 117 "The Hunger Games" "Suzanne Collins" 2008 "978-0439023528" false;
  IBook.mk 118 "The Maze Runner" "James Dashner" 2009 "978-0385737944" true;
  IBook.mk 119 "The Two Towers" "J.R.R. Tolkien" 1954 "978-0618346264" false;
  IBook.mk 120 "Fahrenheit 451" "Ray Bradbury" 1953 "978-1451673319" false
].

(** [Math.max(...xs)] of a non-empty array ([x] is its first element). *)
Definition Math_max (x : Z) (xs : list Z) : Z := foldl Z.max x xs.

(** The state the module is loaded with:
    [nextBookId = Math.max(...books.map(b => b.id)) + 1]. *)
Definition initial : state :=
  mkState preloaded
    (match IBook.id <$> preloaded with
     | x :: xs => Math_max x xs
     | [] => 0
     end + 1).

Definition createBook (data : IBookCreationData.t) (st : state)
  : IBook.t * state :=
  (IBook.mk (nextBookId st)
     (IBookCreationData.title data)
     (IBookCreationData.author data)
     (IBookCreationData.yearOfRelease data)
     (IBookCreationData.isbn data)
     false,
   mkState (books st) (nextBookId st + 1)).

(** The argument of [getBookById] is [string | number]. *)
Inductive idArg : Type :=
| IdString (s : string)
| IdNumber (n : Z).

(** [books.find(book => book.id === bookId)]. *)
Definition find (bookId : Z) (bs : list IBook.t) : option IBook.t :=
  snd <$> list_find (λ b, IBook.id b = bookId) bs.

Definition getBookById (id : idArg) (st : state) : option IBook.t :=
  let bookId := match id with
                | IdString s => Js.parseInt s
                | IdNumber n => Some n
                end in
  match bookId with
  | None => None
  | Some bookId => find bookId (books st)
  end.

Definition addBook (bookData : IBookCreationData.t) (st : state)
  : IBook.t * state :=
  let '(newBook, st1) := createBook bookData st in
  (newBook, mkState (books st1 ++ [newBook]) (nextBookId st1)).

(** The object literal of [updateBook]: the spread of the old record,
    then the four members that are written over it. *)
Definition merge (old : IBook.t) (updateData : IBookUpdateData.t) : IBook.t :=
  IBook.mk (IBook.id old)
    (Js.orString (IBookUpdateData.title updateData) (IBook.title old))
    (Js.orString (IBookUpdateData.author updateData) (IBook.author old))
    (Js.orNumber (IBookUpdateData.yearOfRelease updateData) (IBook.yearOfRelease old))
    (Js.orString (IBookUpdateData.isbn updateData) (IBook.isbn old))
    (IBook.isBorrowed old).

(** [index] is [books.findIndex(b => b.id === bookId)] and [old] is
    [books[index]]; no index is JavaScript's [-1]. *)
Definition updateBook (id : Z) (updateData : IBookUpdateData.t) (st : state)
  : option IBook.t * state :=
  match list_find (λ b, IBook.id b = id) (books st) with
  | None => (None, st)
  | Some (index, old) =>
      let new := merge old updateData in
      (Some new, mkState (<[index := new]> (books st)) (nextBookId st))
  end.

Definition deleteBook (id : Z) (st : state) : bool * state :=
  let initialLength := length (books st) in
  let books' := filter (λ b, IBook.id b ≠ id) (books st) in
  (bool_decide (length books' < initialLength)%nat,
   mkState books' (nextBookId st)).

(** Step 1 of [getBooksPaginatedAndFiltered]: the four filters, each
    behind its [if]. *)
Definition filterTitle (title : option string) (bs : list IBook.t) :=
  match Js.truthyString title with
  | Some title =>
      let titleLower := Js.toLowerCase title in
      filter (λ b, Js.includes (Js.toLowerCase (IBook.title b)) titleLower = true) bs
  | None => bs
  end.

Definition filterAuthor (author : option string) (bs : list IBook.t) :=
  match Js.truthyString author with
  | Some author =>
      let authorLower := Js.toLowerCase author in
      filter (λ b, Js.includes (Js.toLowerCase (IBook.author b)) authorLower = true) bs
  | None => bs
  end.

Definition filterYear (year : option string) (bs : list IBook.t) :=
  match Js.truthyString year with
  | Some year => filter (λ b, Js.String_ (IBook.yearOfRelease b) = year) bs
  | None => bs
  end.

Definition filterIsBorrowed (isBorrowed : option string) (bs : list IBook.t) :=
  match isBorrowed with
  | Some isBorrowed =>
      let isBorrowedBool := bool_decide (Js.toLowerCase isBorrowed = "true") in
      filter (λ b, IBook.isBorrowed b = isBorrowedBool) bs
  | None => bs
  end.

Definition filteredBooks (filters : Filters.t) (bs : list IBook.t) : list IBook.t :=
  filterIsBorrowed (Filters.isBorrowed filters)
    (filterYear (Filters.year filters)
       (filterAuthor (Filters.author filters)
          (filterTitle (Filters.title filters) bs))).

(** Step 2: the page. *)
Definition getBooksPaginatedAndFiltered
    (filters : Filters.t) (page pageSize : Z) (st : state) : IBookResponse.t :=
  let filteredBooks := filteredBooks filters (books st) in
  let totalItems := Z.of_nat (length filteredBooks) in
  let totalPages := Js.ceilDiv totalItems pageSize in
  let startIndex := (page - 1) * pageSize in
  let endIndex := startIndex + pageSize in
  let paginatedBooks := Js.slice filteredBooks startIndex endIndex in
  IBookResponse.mk paginatedBooks
    (IPaginationResult.mk totalItems totalPages page pageSize).

End BookRepository.


(** ** index.ts: the Express routes *)

Module App.

(** What a handler sends: a status and a JSON body ([res.json] alone
    sends status 200, [res.status(204).send()] an empty body). *)
Inductive body : Type :=
| Book (b : IBook.t)
| Page (r : IBookResponse.t)
| Error (error : string)
| Empty.

Record response : Type := mkResponse {
  status : Z;
  payload : body
}.

(** A template literal prints a missing value as [undefined]. *)
Definition show (o : option string) : string := default "undefined" o.

Definition invalidId (id : string) : response :=
  mkResponse 400
    (Error ("Invalid Book ID provided: " +:+ id +:+ ". Must be a positive integer.")).

Definition notFound (id : string) : response :=
  mkResponse 404 (Error ("Book with ID " +:+ id +:+ " not found")).

(** The guard [isNaN(n) || n < 1] on a result of [parseInt]: the
    number when it passes, nothing when the handler answers 400. *)
Definition atLeastOne (n : option Z) : option Z :=
  match n with
  | None => None
  | Some n => if n <? 1 then None else Some n
  end.

(** GET /api/books *)
Definition getBooks (query : IBookQuery.t) (st : BookRepository.state) : response :=
  let pageNum := Js.parseInt (Js.orString (IBookQuery.page query) "1") in
  let pageSize := Js.parseInt (Js.orString (IBookQuery.size query) "10") in
  match atLeastOne pageNum with
  | None =>
      mkResponse 400
        (Error ("Invalid 'page' number provided. Must be a positive integer (e.g., 1, 2, 3...). Received: "
                +:+ show (IBookQuery.page query)))
  | Some pageNum =>
      match atLeastOne pageSize with
      | None =>
          mkResponse 400
            (Error ("Invalid 'size' (page size) provided. Must be a positive integer (e.g., 1, 10, 50...). Received: "
                    +:+ show (IBookQuery.size query)))
      | Some pageSize =>
          let filters := Filters.mk (IBookQuery.title query) (IBookQuery.author query)
                           (IBookQuery.year query) (IBookQuery.isBorrowed query) in
          mkResponse 200
            (Page (BookRepository.getBooksPaginatedAndFiltered filters pageNum pageSize st))
      end
  end.

(** GET /api/books/:id *)
Definition getBook (id : string) (st : BookRepository.state) : response :=
  match atLeastOne (Js.parseInt id) with
  | None => invalidId id
  | Some _ =>
      match BookRepository.getBookById (BookRepository.IdString id) st with
      | None => notFound id
      | Some book => mkResponse 200 (Book book)
      end
  end.

(** [Object.keys(updateData)] for a body of the interface
    [IBookUpdateData]: the members that are present. *)
Definition key {A} (name : string) (member : option A) : list string :=
  if member is Some _ then [name] else [].

Definition keys (updateData : IBookUpdateData.t) : list string :=
  key "title" (IBookUpdateData.title updateData) ++
  key "author" (IBookUpdateData.author updateData) ++
  key "yearOfRelease" (IBookUpdateData.yearOfRelease updateData) ++
  key "isbn" (IBookUpdateData.isbn updateData).

(** PUT /api/books/:id *)
Definition putBook (id : string) (updateData : IBookUpdateData.t)
    (st : BookRepository.state) : response * BookRepository.state :=
  match atLeastOne (Js.parseInt id) with
  | None => (invalidId id, st)
  | Some numericId =>
      if bool_decide (length (keys updateData) = 0%nat) then
        (mkResponse 400 (Error "No update data provided."), st)
      else
        match BookRepository.updateBook numericId updateData st with
        | (None, st') => (notFound id, st')
        | (Some updatedBook, st') => (mkResponse 200 (Book updatedBook), st')
        end
  end.

(** DELETE /api/books/:id *)
Definition deleteBook (id : string) (st : BookRepository.state)
  : response * BookRepository.state :=
  match atLeastOne (Js.parseInt id) with
  | None => (invalidId id, st)
  | Some numericId =>
      match BookRepository.deleteBook numericId st with
      | (false, st') => (notFound id, st')
      | (true, st') => (mkResponse 204 Empty, st')
      end
  end.

(** The body of a POST before the handler has checked it: JSON, in which
    each of the three members the handler tests may be missing. The
    member [yearOfRelease], which the handler does not test, is taken
    as the interface [IBookCreationData] declares it. *)
Record creationBody : Type := mkCreationBody {
  bodyTitle : option string;
  bodyAuthor : option string;
  bodyYearOfRelease : Z;
  bodyIsbn : option string
}.

(** POST /api/books: [!bookData.title || !bookData.author ||
    !bookData.isbn] answers 400; otherwise the body is the
    [bookData] handed to [addBook]. *)
Definition postBook (bookData : creationBody) (st : BookRepository.state)
  : response * BookRepository.state :=
  match Js.truthyString (bodyTitle bookData),
        Js.truthyString (bodyAuthor bookData),
        Js.truthyString (bodyIsbn bookData) with
  | Some title, Some author, Some isbn =>
      let '(newBook, st') :=
        BookRepository.addBook
          (IBookCreationData.mk title author (bodyYearOfRelease bookData) isbn) st in
      (mkResponse 201 (Book newBook), st')
  | _, _, _ =>
      (mkResponse 400
         (Error "Missing required fields: title, author, and isbn are mandatory."),
       st)
  end.

(** One request to the service, with query parameters that are single
    strings and bodies of the declared interfaces: a request on which a
    handler throws (a repeated query parameter, a missing body) is not
    among them. *)
Inductive request : Type :=
| GetBooks (query : IBookQuery.t)
| GetBook (id : string)
| PostBook (bookData : creationBody)
| PutBook (id : string) (updateData : IBookUpdateData.t)
| DeleteBook (id : string).

(** The handler the router picks for a request. *)
Definition handle (req : request) (st : BookRepository.state)
  : response * BookRepository.state :=
  match req with
  | GetBooks query => (getBooks query st, st)
  | GetBook id => (getBook id st, st)
  | PostBook bookData => postBook bookData st
  | PutBook id updateData => putBook id updateData st
  | DeleteBook id => deleteBook id st
  end.

(** The states the service can be in when it is only driven by
    requests. *)
Inductive served : BookRepository.state → Prop :=
| served_initial : served BookRepository.initial
| served_handle req st : served st → served (snd (handle req st)).

End App.

(** ** The service as a transition system

  Between two requests the state only changes through the three
  mutating functions of the repository. *)

Module Service.
Import BookRepository.

Inductive operation : Type :=
| Create (data : IBookCreationData.t)
| Update (id : Z) (updateData : IBookUpdateData.t)
| Delete (id : Z).

Definition step (st : state) (o : operation) : state :=
  match o with
  | Create data => snd (addBook data st)
  | Update id updateData => snd (updateBook id updateData st)
  | Delete id => snd (deleteBook id st)
  end.

Definition run (st : state) (os : list operation) : state := foldl step st os.

(** The states the running service can be in. *)
Inductive reachable : state → Prop :=
| reachable_initial : reachable initial
| reachable_step st o : reachable st → reachable (step st o).

Definition ids (st : state) : list Z := IBook.id <$> books st.

(** No two records of the store carry the same id. *)
Definition uniqueIds (st : state) : Prop := NoDup (ids st).

(** Every id of the store is below the counter. *)
Definition belowCounter (st : state) : Prop :=
  Forall (λ b, IBook.id b < nextBookId st) (books st).

End Service.

(** ** The vocabulary of the specification *)

Module Spec.

(** The elements of [l] whose position [i], counted from 0, satisfies
    [a ≤ i < b], in the order of [l]. *)
Fixpoint rangeFrom {A} (pos : Z) (l : list A) (a b : Z) : list A :=
  match l with
  | [] => []
  | x :: l' =>
      if decide (a ≤ pos < b) then x :: rangeFrom (pos + 1) l' a b
      else rangeFrom (pos + 1) l' a b
  end.

Definition indexRange {A} (l : list A) (a b : Z) : list A := rangeFrom 0 l a b.

(** [n] is the ceiling of [a / b]: the least integer with [a ≤ n * b]. *)
Definition isCeiling (n a b : Z) : Prop := (n - 1) * b < a ≤ n * b.

(** [r] is page [page] of [filtered] with pages of [pageSize] records:
    the index range of the page and the metadata. *)
Definition isPageOf (filtered : list IBook.t) (page pageSize : Z)
    (r : IBookResponse.t) : Prop :=
  let p := IBookResponse.pagination r in
  IPaginationResult.totalItems p = Z.of_nat (length filtered) ∧
  isCeiling (IPaginationResult.totalPages p) (IPaginationResult.totalItems p) pageSize ∧
  IPaginationResult.currentPage p = page ∧
  IPaginationResult.pageSize p = pageSize ∧
  IBookResponse.books r =
    indexRange filtered ((page - 1) * pageSize) ((page - 1) * pageSize + pageSize).

(** [sub] occurs in [s] when letter case is ignored. *)
Definition ciIncludes (s sub : string) : Prop :=
  Js.includes (Js.toLowerCase s) (Js.toLowerCase sub) = true.

(** A condition that only binds when the value is there. *)
Definition whenDefined {A} (o : option A) (P : A → Prop) : Prop :=
  match o with
  | Some x => P x
  | None => True
  end.

#[export] Instance whenDefined_dec {A} (o : option A) (P : A → Prop)
    `{∀ x, Decision (P x)} : Decision (whenDefined o P) :=
  match o with
  | Some x => decide (P x)
  | None => left I
  end.

(** The reading of the borrowed filter: true for the word [true] in
    any letter case, false for everything else. *)
Definition borrowedFlag (s : string) : bool :=
  bool_decide (Js.toLowerCase s = "true").

Definition titleCond (f : Filters.t) (b : IBook.t) : Prop :=
  whenDefined (Filters.title f) (ciIncludes (IBook.title b)).
Definition authorCond (f : Filters.t) (b : IBook.t) : Prop :=
  whenDefined (Filters.author f) (ciIncludes (IBook.author b)).
Definition borrowedCond (f : Filters.t) (b : IBook.t) : Prop :=
  whenDefined (Filters.isBorrowed f) (λ s, IBook.isBorrowed b = borrowedFlag s).

(** The year condition as the specification words it: it binds
    whenever the year filter is defined. *)
Definition yearCondDefined (f : Filters.t) (b : IBook.t) : Prop :=
  whenDefined (Filters.year f) (λ y, Js.String_ (IBook.yearOfRelease b) = y).

(** The year condition of the code: it binds when the year filter is
    defined and not the empty string. *)
Definition yearCondTruthy (f : Filters.t) (b : IBook.t) : Prop :=
  whenDefined (Js.truthyString (Filters.year f))
    (λ y, Js.String_ (IBook.yearOfRelease b) = y).

#[export] Instance titleCond_dec f b : Decision (titleCond f b).
Proof. unfold titleCond, ciIncludes. apply _. Defined.
#[export] Instance authorCond_dec f b : Decision (authorCond f b).
Proof. unfold authorCond, ciIncludes. apply _. Defined.
#[export] Instance borrowedCond_dec f b : Decision (borrowedCond f b).
Proof. unfold borrowedCond. apply _. Defined.
#[export] Instance yearCondDefined_dec f b : Decision (yearCondDefined f b).
Proof. unfold yearCondDefined. apply _. Defined.
#[export] Instance yearCondTruthy_dec f b : Decision (yearCondTruthy f b).
Proof. unfold yearCondTruthy. apply _. Defined.

(** The records the specification selects: every defined filter binds. *)
Definition selectedWhenDefined (f : Filters.t) (b : IBook.t) : Prop :=
  titleCond f b ∧ authorCond f b ∧ yearCondDefined f b ∧ borrowedCond f b.

(** The same with the year filter binding only when it is not empty. *)
Definition selected (f : Filters.t) (b : IBook.t) : Prop :=
  titleCond f b ∧ authorCond f b ∧ yearCondTruthy f b ∧ borrowedCond f b.

#[export] Instance selectedWhenDefined_dec f b : Decision (selectedWhenDefined f b).
Proof. unfold selectedWhenDefined. apply _. Defined.

#[export] Instance selected_dec f b : Decision (selected f b).
Proof. unfold selected. apply _. Defined.

(** [s] is the word [true] up to letter case. *)
Definition isTrueWord (s : string) : Prop :=
  ∃ c1 c2 c3 c4,
    s = String c1 (String c2 (String c3 (String c4 EmptyString))) ∧
    (c1 = "t" ∨ c1 = "T")%char ∧ (c2 = "r" ∨ c2 = "R")%char ∧
    (c3 = "u" ∨ c3 = "U")%char ∧ (c4 = "e" ∨ c4 = "E")%char.

(** A member of an update payload is falsy when it is missing, the
    empty string, or zero. *)
Definition falsyString (o : option string) : Prop := o = None ∨ o = Some EmptyString.
Definition falsyNumber (o : option Z) : Prop := o = None ∨ o = Some 0.

(** A path parameter is a valid id when [parseInt] reads an integer
    of at least 1 from it. *)
Definition validId (id : string) (n : Z) : Prop := Js.parseInt id = Some n ∧ 1 ≤ n.

(** [rest] does not begin with a decimal digit. *)
Definition stops (rest : string) : Prop :=
  ∀ c s, rest = String c s → Js.digit c = None.

(** The required fields of a record are not empty. *)
Definition filled (b : IBook.t) : Prop :=
  IBook.title b ≠ EmptyString ∧ IBook.author b ≠ EmptyString ∧
  IBook.isbn b ≠ EmptyString.


(** The integers JavaScript holds exactly. *)
Definition maxSafeInteger : Z := 9007199254740991.

(** [ws] is made of white space only. *)
Definition blank (ws : string) : Prop := Js.trimStart ws = EmptyString.

End Spec.

(** ** Facts about the JavaScript primitives *)

Module JsFacts.
Import Js.

Lemma startsWith_spec sub s :
  startsWith sub s = true ↔ ∃ post, s = sub +:+ post.
Proof.
  revert s. induction sub as [|a sub IH]; intros s; simpl.
  - split; [eauto | done].
  - destruct s as [|b s].
    + split; [done | intros [post Hpost]; discriminate].
    + rewrite andb_true_iff, IH. split.
      * intros [Hab [post ->]]. apply Ascii.eqb_eq in Hab as ->. eauto.
      * intros [post [= -> ->]]. split; [apply Ascii.eqb_refl | eauto].
Qed.

(** [includes] finds exactly the occurrences of [sub] inside [s]. *)
Lemma includes_spec s sub :
  includes s sub = true ↔ ∃ pre post, s = pre +:+ sub +:+ post.
Proof.
  induction s as [|c s IH].
  - simpl. rewrite orb_false_r, startsWith_spec. split.
    + intros [post ->]. by exists EmptyString, post.
    + intros [pre [post H]]. destruct pre; [eauto | discriminate].
  - cbn [includes]. rewrite orb_true_iff, startsWith_spec, IH. split.
    + intros [[post ->] | [pre [post ->]]].
      * by exists EmptyString, post.
      * by exists (String c pre), post.
    + intros [[|c' pre] [post H]].
      * left. eauto.
      * right. injection H as _ ->. eauto.
Qed.

Lemma includes_empty s : includes s EmptyString = true.
Proof. destruct s; reflexivity. Qed.

(** The digits of a numeral are read back as they were written. *)
Lemma digits_string_of_uint d : digits (NilEmpty.string_of_uint d) = d.
Proof. induction d; simpl; congruence. Qed.

Lemma string_of_uint_head d :
  d ≠ Nil →
  ∃ c s, NilEmpty.string_of_uint d = String c s ∧ is_Some (digit c).
Proof. destruct d; [done | ..]; intros _; simpl; eauto. Qed.

Lemma digit_not_space c : is_Some (digit c) → isWhiteSpace c = false.
Proof.
  destruct c as [[|] [|] [|] [|] [|] [|] [|] [|]]; simpl;
    first [ reflexivity | by intros [? [=]] ].
Qed.

Lemma parseInt_digit c s :
  is_Some (digit c) → parseInt (String c s) = parseDigits 1 (String c s).
Proof.
  intros Hc. unfold parseInt. cbn [trimStart].
  rewrite (digit_not_space _ Hc).
  destruct c as [[|] [|] [|] [|] [|] [|] [|] [|]]; simpl in *;
    first [ reflexivity | by destruct Hc as [? [=]] ].
Qed.

Lemma parseDigits_string_of_uint sign d :
  d ≠ Nil →
  parseDigits sign (NilEmpty.string_of_uint d) = Some (sign * Z.of_uint d).
Proof.
  intros Hd. unfold parseDigits. rewrite digits_string_of_uint.
  by destruct d.
Qed.

Lemma parseDigits_numeral sign p :
  parseDigits sign (NilEmpty.string_of_uint (Pos.to_uint p)) = Some (sign * Z.pos p).
Proof.
  rewrite parseDigits_string_of_uint
    by apply DecimalPos.Unsigned.to_uint_nonnil.
  unfold Z.of_uint. by rewrite DecimalPos.Unsigned.of_to.
Qed.

Lemma numeral_nonnil p :
  NilZero.string_of_uint (Pos.to_uint p) = NilEmpty.string_of_uint (Pos.to_uint p).
Proof.
  pose proof (DecimalPos.Unsigned.to_uint_nonnil p).
  by destruct (Pos.to_uint p).
Qed.

(** [parseInt] reads the numeral of an integer back as that integer. *)
Lemma parseInt_String_ n : parseInt (String_ n) = Some n.
Proof.
  unfold String_. destruct n as [|p|p]; [reflexivity | ..]; simpl.
  - rewrite numeral_nonnil.
    destruct (string_of_uint_head (Pos.to_uint p)) as (c & s & Hs & Hc);
      [apply DecimalPos.Unsigned.to_uint_nonnil|].
    rewrite Hs, (parseInt_digit _ _ Hc), <- Hs, parseDigits_numeral.
    f_equal; lia.
  - rewrite numeral_nonnil. unfold parseInt. simpl.
    rewrite parseDigits_numeral. f_equal; lia.
Qed.


Lemma ceilDiv_spec a b : 0 < b → (ceilDiv a b - 1) * b < a ≤ ceilDiv a b * b.
Proof.
  intros Hb. unfold ceilDiv.
  pose proof (Z.div_mod (- a) b ltac:(lia)).
  pose proof (Z.mod_pos_bound (- a) b Hb).
  nia.
Qed.

(** With both bounds inside [0 .. ∞), [slice] is a drop followed by a
    take. *)
Lemma slice_nonneg {A} (l : list A) (a b : Z) :
  0 ≤ a → a ≤ b →
  slice l a b = take (Z.to_nat (b - a)) (drop (Z.to_nat a) l).
Proof.
  intros Ha Hab. unfold slice, relativeIndex.
  destruct (Z.ltb_spec a 0); [lia|]. destruct (Z.ltb_spec b 0); [lia|].
  set (len := Z.of_nat (length l)).
  destruct (decide (a ≤ len)) as [Hin|Hout].
  - rewrite (Z.min_l a len) by lia.
    destruct (decide (b ≤ len)) as [Hb|Hb].
    + by rewrite (Z.min_l b len) by lia.
    + rewrite (Z.min_r b len) by lia.
      rewrite !take_ge; [done | rewrite length_drop; lia | rewrite length_drop; lia].
  - rewrite (Z.min_r a len), (Z.min_r b len) by lia.
    rewrite !drop_ge by lia. by rewrite !take_nil.
Qed.

End JsFacts.

(** ** Index ranges *)

Module RangeFacts.
Import Spec.

Lemma rangeFrom_reached {A} (l : list A) pos a b :
  a ≤ pos → rangeFrom pos l a b = take (Z.to_nat (b - pos)) l.
Proof.
  revert pos. induction l as [|x l IH]; intros pos Hpos; simpl.
  - by rewrite take_nil.
  - destruct (decide (a ≤ pos < b)) as [Hin|Hout].
    + rewrite IH by lia.
      replace (Z.to_nat (b - pos)) with (S (Z.to_nat (b - (pos + 1)))) by lia.
      done.
    + rewrite IH by lia.
      replace (Z.to_nat (b - (pos + 1))) with 0%nat by lia.
      by replace (Z.to_nat (b - pos)) with 0%nat by lia.
Qed.

Lemma rangeFrom_ahead {A} (l : list A) pos a b :
  pos ≤ a →
  rangeFrom pos l a b = take (Z.to_nat (b - a)) (drop (Z.to_nat (a - pos)) l).
Proof.
  revert pos. induction l as [|x l IH]; intros pos Hpos.
  - by rewrite drop_nil, take_nil.
  - destruct (decide (pos = a)) as [->|Hne].
    + rewrite rangeFrom_reached by lia.
      by replace (Z.to_nat (a - a)) with 0%nat by lia.
    + simpl. destruct (decide (a ≤ pos < b)); [lia|].
      rewrite IH by lia.
      by replace (Z.to_nat (a - pos)) with (S (Z.to_nat (a - (pos + 1)))) by lia.
Qed.

(** From a start that is not negative, the index range and
    JavaScript's [slice] are the same list. *)
Lemma slice_indexRange {A} (l : list A) a b :
  0 ≤ a → a ≤ b → Js.slice l a b = indexRange l a b.
Proof.
  intros Ha Hab. rewrite JsFacts.slice_nonneg by done.
  unfold indexRange. rewrite rangeFrom_ahead by done.
  by rewrite Z.sub_0_r.
Qed.

(** A range that ends at position 0 holds nothing, and so does the
    [slice] that ends there. *)
Lemma slice_indexRange_zero {A} (l : list A) a :
  a < 0 → Js.slice l a 0 = indexRange l a 0.
Proof.
  intros Ha. unfold indexRange. rewrite rangeFrom_reached by lia.
  unfold Js.slice, Js.relativeIndex.
  destruct (Z.ltb_spec a 0); [|lia]. simpl.
  replace (Z.to_nat (Z.min 0 (Z.of_nat (length l)) -
                     Z.max (Z.of_nat (length l) + a) 0)) with 0%nat by lia.
  done.
Qed.

Lemma indexRange_beyond {A} (l : list A) a b :
  Z.of_nat (length l) ≤ a → indexRange l a b = [].
Proof.
  intros Hlen. unfold indexRange. rewrite rangeFrom_ahead by lia.
  rewrite drop_ge by lia. apply take_nil.
Qed.

End RangeFacts.

(** ** Pagination *)

Module Pagination.
Import BookRepository Spec.

(** C1, as amended. For every state of the store, every combination of
    filters, every page number [page ≥ 0] (the route admits [page ≥ 1])
    and every [pageSize ≥ 1], the
    answer of the query carries [totalItems], the length of the filtered
    list, and [totalPages], the ceiling of [totalItems / pageSize], and
    its books are exactly the filtered records at the positions
    [(page-1)*pageSize ≤ i < (page-1)*pageSize + pageSize]; when
    [(page-1)*pageSize ≥ totalItems] that list is empty and the metadata
    is the same. *)
Theorem query_returns_page (filters : Filters.t) (page pageSize : Z) (st : state) :
  0 ≤ page → 1 ≤ pageSize →
  let r := getBooksPaginatedAndFiltered filters page pageSize st in
  isPageOf (filteredBooks filters (books st)) page pageSize r ∧
  (IPaginationResult.totalItems (IBookResponse.pagination r) ≤ (page - 1) * pageSize →
   IBookResponse.books r = []).
Proof.
  intros Hpage Hsize r.
  assert (IBookResponse.books r =
          indexRange (filteredBooks filters (books st))
            ((page - 1) * pageSize) ((page - 1) * pageSize + pageSize)) as Hbooks.
  { subst r. unfold getBooksPaginatedAndFiltered. simpl.
    destruct (decide (page = 0)) as [->|Hne].
    - replace ((0 - 1) * pageSize + pageSize) with 0 by lia.
      apply RangeFacts.slice_indexRange_zero. lia.
    - apply RangeFacts.slice_indexRange; nia. }
  split.
  - unfold isPageOf. repeat split; try done.
    + apply JsFacts.ceilDiv_spec. lia.
    + apply JsFacts.ceilDiv_spec. lia.
  - intros Hbeyond. rewrite Hbooks.
    apply RangeFacts.indexRange_beyond. exact Hbeyond.
Qed.

Lemma query_returns_page_witness :
  let r := getBooksPaginatedAndFiltered Filters.none 11 2 initial in
  isPageOf (filteredBooks Filters.none (books initial)) 11 2 r ∧
  (IPaginationResult.totalItems (IBookResponse.pagination r) ≤ (11 - 1) * 2 →
   IBookResponse.books r = []).
Proof. apply (query_returns_page Filters.none 11 2 initial); lia. Defined.

(** The specification's reading fails for a page number below 0: with
    no filter, page [-1] of size 2 over the preloaded store is the
    index range [[-4, -2)], which holds no record, while the query
    answers with the records at positions 16 and 17. *)
Lemma query_negative_page :
  1 ≤ 2 ∧
  IBook.id <$> IBookResponse.books
    (getBooksPaginatedAndFiltered Filters.none (-1) 2 initial) = [117; 118] ∧
  ¬ isPageOf (filteredBooks Filters.none (books initial)) (-1) 2
      (getBooksPaginatedAndFiltered Filters.none (-1) 2 initial).
Proof.
  split; [lia|]. split; [reflexivity|].
  intros (_ & _ & _ & _ & Hbooks). vm_compute in Hbooks. discriminate.
Qed.

End Pagination.

(** ** Filtering *)

Module Filtering.
Import BookRepository Spec.

Lemma filter_all {A} (P : A → Prop) `{∀ x, Decision (P x)} (l : list A) :
  (∀ x, P x) → filter P l = l.
Proof.
  intros HP. induction l as [|x l IH]; [done|].
  by rewrite filter_cons_True, IH.
Qed.

Lemma filter_all_in {A} (P : A → Prop) `{∀ x, Decision (P x)} (l : list A) :
  (∀ x, x ∈ l → P x) → filter P l = l.
Proof.
  induction l as [|x l IH]; intros HP; [done|].
  rewrite filter_cons_True by (apply HP; left).
  f_equal. apply IH. intros y Hy. apply HP. by right.
Qed.

Lemma ciIncludes_spec s sub :
  ciIncludes s sub ↔
  ∃ pre post, Js.toLowerCase s = pre +:+ Js.toLowerCase sub +:+ post.
Proof. apply JsFacts.includes_spec. Qed.

Lemma ciIncludes_empty s : ciIncludes s EmptyString.
Proof. apply JsFacts.includes_empty. Qed.

(** Each step of the pipeline is one filter of the list. An empty
    title or author filter is skipped by its [if], and binds no record
    when it is applied: the two cannot be told apart. *)
Lemma filterTitle_spec f bs :
  filterTitle (Filters.title f) bs = filter (titleCond f) bs.
Proof.
  destruct f as [[[|c t]|] a y ib]; unfold filterTitle; simpl.
  - symmetry. apply filter_all. intros b. apply ciIncludes_empty.
  - by apply list_filter_iff.
  - symmetry. by apply filter_all.
Qed.

Lemma filterAuthor_spec f bs :
  filterAuthor (Filters.author f) bs = filter (authorCond f) bs.
Proof.
  destruct f as [t [[|c a]|] y ib]; unfold filterAuthor; simpl.
  - symmetry. apply filter_all. intros b. apply ciIncludes_empty.
  - by apply list_filter_iff.
  - symmetry. by apply filter_all.
Qed.

Lemma filterYear_spec f bs :
  filterYear (Filters.year f) bs = filter (yearCondTruthy f) bs.
Proof.
  destruct f as [t a [[|c y]|] ib]; unfold filterYear; simpl.
  - symmetry. by apply filter_all.
  - by apply list_filter_iff.
  - symmetry. by apply filter_all.
Qed.

Lemma filterIsBorrowed_spec f bs :
  filterIsBorrowed (Filters.isBorrowed f) bs = filter (borrowedCond f) bs.
Proof.
  destruct f as [t a y [ib|]]; unfold filterIsBorrowed; simpl.
  - by apply list_filter_iff.
  - symmetry. by apply filter_all.
Qed.

Lemma filteredBooks_pipeline f bs :
  filteredBooks f bs =
  filter (borrowedCond f) (filter (yearCondTruthy f)
    (filter (authorCond f) (filter (titleCond f) bs))).
Proof.
  unfold filteredBooks.
  by rewrite filterTitle_spec, filterAuthor_spec, filterYear_spec,
    filterIsBorrowed_spec.
Qed.

(** C4, as amended. For every combination of filters the query keeps,
    in their order of insertion, exactly the records that pass a
    case-insensitive substring match of the title filter, a
    case-insensitive substring match of the author filter, equality of
    the year filter with the decimal numeral of the release year, and
    equality of the borrowed status with the reading of the borrowed
    filter; the four are applied in that order, each on its own; the
    title, author and borrowed filters bind whenever they are defined,
    the year filter binds when it is defined and is not the empty
    string. *)
Theorem query_filters (f : Filters.t) (bs : list IBook.t) :
  filteredBooks f bs = filter (selected f) bs ∧
  filteredBooks f bs =
    filter (borrowedCond f) (filter (yearCondTruthy f)
      (filter (authorCond f) (filter (titleCond f) bs))) ∧
  filteredBooks f bs `sublist_of` bs ∧
  (∀ s sub, ciIncludes s sub ↔
     ∃ pre post, Js.toLowerCase s = pre +:+ Js.toLowerCase sub +:+ post).
Proof.
  split; [|split; [apply filteredBooks_pipeline | split; [|apply ciIncludes_spec]]].
  - rewrite filteredBooks_pipeline, !list_filter_filter.
    apply list_filter_iff. intros b. unfold selected. tauto.
  - rewrite filteredBooks_pipeline.
    repeat (etrans; [apply sublist_filter; apply _|]). done.
Qed.

(** The year filter of the specification binds whenever it is defined.
    The query [?year=] carries the empty string: no release year has
    the empty numeral, so the specification selects no record, while
    the query skips the filter and keeps the twenty of them. *)
Lemma query_empty_year :
  let f := Filters.mk None None (Some EmptyString) None in
  filter (selectedWhenDefined f) preloaded = [] ∧
  filteredBooks f preloaded = preloaded ∧
  filteredBooks f preloaded ≠ filter (selectedWhenDefined f) preloaded.
Proof. split; [|split]; vm_compute; done. Qed.

End Filtering.

(** ** The borrowed filter *)

Module Borrowed.
Import BookRepository Spec.

Lemma lowerChar_cases (c : ascii) :
  ((Js.lowerChar c = "t" ↔ c = "t" ∨ c = "T") ∧
   (Js.lowerChar c = "r" ↔ c = "r" ∨ c = "R") ∧
   (Js.lowerChar c = "u" ↔ c = "u" ∨ c = "U") ∧
   (Js.lowerChar c = "e" ↔ c = "e" ∨ c = "E"))%char.
Proof.
  destruct c as [[|] [|] [|] [|] [|] [|] [|] [|]]; vm_compute;
    repeat split; try tauto; try discriminate;
    intros [H|H]; discriminate.
Qed.

(** Lower-casing gives [true] exactly for the word [true] written in
    any mix of upper and lower case. *)
Lemma toLowerCase_true s : Js.toLowerCase s = "true" ↔ isTrueWord s.
Proof.
  unfold isTrueWord. split.
  - destruct s as [|c1 [|c2 [|c3 [|c4 [|c5 s]]]]]; simpl; try discriminate.
    intros [= H1 H2 H3 H4]. exists c1, c2, c3, c4.
    split; [done|].
    apply (lowerChar_cases c1) in H1. apply (lowerChar_cases c2) in H2.
    apply (lowerChar_cases c3) in H3. apply (lowerChar_cases c4) in H4.
    done.
  - intros (c1 & c2 & c3 & c4 & -> & H1 & H2 & H3 & H4). simpl.
    apply (lowerChar_cases c1) in H1. apply (lowerChar_cases c2) in H2.
    apply (lowerChar_cases c3) in H3. apply (lowerChar_cases c4) in H4.
    by rewrite H1, H2, H3, H4.
Qed.

Lemma filteredBooks_borrowed t a y s bs :
  filteredBooks (Filters.mk t a y (Some s)) bs =
  filter (λ b, IBook.isBorrowed b = borrowedFlag s)
    (filteredBooks (Filters.mk t a y None) bs).
Proof. reflexivity. Qed.

(** With the borrowed filter defined, the query keeps the records of
    the store that pass the other three filters and whose borrowed status
    is the reading of the value. *)
Lemma filteredBooks_flag t a y s bs :
  filteredBooks (Filters.mk t a y (Some s)) bs =
  filter (λ b, selected (Filters.mk t a y None) b ∧
               IBook.isBorrowed b = borrowedFlag s) bs.
Proof.
  rewrite filteredBooks_borrowed, Filtering.filteredBooks_pipeline.
  rewrite !list_filter_filter. apply list_filter_iff. intros b.
  unfold selected, borrowedCond. simpl. tauto.
Qed.

Lemma borrowedFlag_true s : isTrueWord s → borrowedFlag s = true.
Proof.
  intros Hs. apply toLowerCase_true in Hs.
  unfold borrowedFlag. by rewrite bool_decide_eq_true_2.
Qed.

Lemma borrowedFlag_false s : ¬ isTrueWord s → borrowedFlag s = false.
Proof.
  intros Hs. unfold borrowedFlag. rewrite bool_decide_eq_false_2; [done|].
  intros Hlow. by apply Hs, toLowerCase_true.
Qed.

(** C10. When the borrowed filter is defined, the query reads it as true
    exactly when the value is the word [true] in any letter case, and as
    false for every other value; the value is never turned down and the
    filter is never skipped. With no other filter, the query then keeps
    exactly the borrowed records of the store when the value is the
    word [true], and exactly the records that are not borrowed for every
    other value, in the order of the store. With other filters, it keeps
    exactly the records of the store that pass them and have that
    borrowed status, which are the records the query without the
    borrowed filter keeps and that have that status. *)
Theorem query_borrowed_reading (s : string) (t a y : option string)
    (bs : list IBook.t) :
  let rest := filteredBooks (Filters.mk t a y None) bs in
  let kept := filteredBooks (Filters.mk t a y (Some s)) bs in
  let only := filteredBooks (Filters.mk None None None (Some s)) bs in
  (isTrueWord s → kept = filter (λ b, IBook.isBorrowed b = true) rest) ∧
  (¬ isTrueWord s → kept = filter (λ b, IBook.isBorrowed b = false) rest) ∧
  (isTrueWord s → only = filter (λ b, IBook.isBorrowed b = true) bs) ∧
  (¬ isTrueWord s → only = filter (λ b, IBook.isBorrowed b = false) bs) ∧
  (isTrueWord s →
   kept = filter (λ b, selected (Filters.mk t a y None) b ∧
                       IBook.isBorrowed b = true) bs) ∧
  (¬ isTrueWord s →
   kept = filter (λ b, selected (Filters.mk t a y None) b ∧
                       IBook.isBorrowed b = false) bs) ∧
  (∀ b, b ∈ only ↔
        b ∈ bs ∧ (isTrueWord s ∧ IBook.isBorrowed b = true ∨
                  ¬ isTrueWord s ∧ IBook.isBorrowed b = false)).
Proof.
  intros rest kept only. subst rest kept only.
  assert (∀ flag, borrowedFlag s = flag →
            filteredBooks (Filters.mk None None None (Some s)) bs =
            filter (λ b, IBook.isBorrowed b = flag) bs) as Honly.
  { intros flag <-. rewrite filteredBooks_flag.
    apply list_filter_iff. intros b.
    unfold selected, titleCond, authorCond, yearCondTruthy, borrowedCond.
    simpl. tauto. }
  split; [|split; [|split; [|split; [|split; [|split]]]]].
  - intros Hs. by rewrite filteredBooks_borrowed, borrowedFlag_true.
  - intros Hs. by rewrite filteredBooks_borrowed, borrowedFlag_false.
  - intros Hs. by apply Honly, borrowedFlag_true.
  - intros Hs. by apply Honly, borrowedFlag_false.
  - intros Hs. by rewrite filteredBooks_flag, borrowedFlag_true.
  - intros Hs. by rewrite filteredBooks_flag, borrowedFlag_false.
  - intros b. rewrite (Honly _ eq_refl), list_elem_of_filter.
    destruct (borrowedFlag s) eqn:Hflag.
    + assert (isTrueWord s) as Hs.
      { apply toLowerCase_true. unfold borrowedFlag in Hflag.
        by apply bool_decide_eq_true in Hflag. }
      split; [intros [? ?]; eauto | intros [? [[_ ?] | [Hn _]]]; [done | by destruct Hn]].
    + assert (¬ isTrueWord s) as Hs.
      { intros Hs. apply borrowedFlag_true in Hs. congruence. }
      split; [intros [? ?]; eauto | intros [? [[Hy _] | [_ ?]]]; [by destruct Hs | done]].
Qed.

Lemma query_borrowed_reading_witness :
  filteredBooks (Filters.mk None None None (Some "banana")) preloaded =
    filter (λ b, IBook.isBorrowed b = false) preloaded ∧
  IBook.id <$> filteredBooks (Filters.mk None None None (Some "banana")) preloaded =
    [101; 103; 104; 106; 108; 110; 111; 113; 114; 116; 117; 119; 120].
Proof.
  destruct (query_borrowed_reading "banana" None None None preloaded)
    as (_ & _ & _ & Hother & _).
  assert (¬ isTrueWord "banana") as Hword.
  { intros (c1 & c2 & c3 & c4 & Hword & _). discriminate Hword. }
  split; [exact (Hother Hword)|].
  rewrite (Hother Hword). reflexivity.
Defined.

(** The values [1] and [yes] select the records that are not borrowed,
    [TRUE] the borrowed ones. *)
Example borrowed_examples :
  IBook.id <$> filteredBooks (Filters.mk None None None (Some "1")) preloaded
    = [101; 103; 104; 106; 108; 110; 111; 113; 114; 116; 117; 119; 120] ∧
  filteredBooks (Filters.mk None None None (Some "yes")) preloaded
    = filteredBooks (Filters.mk None None None (Some "1")) preloaded ∧
  IBook.id <$> filteredBooks (Filters.mk None None None (Some "TRUE")) preloaded
    = [102; 105; 107; 109; 112; 115; 118].
Proof. repeat split; vm_compute; reflexivity. Qed.

End Borrowed.

(** ** Lemmas on the repository functions *)

Module RepositoryFacts.
Import BookRepository Service Spec.

Lemma state_eta st : mkState (books st) (nextBookId st) = st.
Proof. by destruct st. Qed.

Lemma find_Some n bs b :
  find n bs = Some b → b ∈ bs ∧ IBook.id b = n.
Proof.
  unfold find. destruct (list_find _ bs) as [[i x]|] eqn:Hfind; [|done].
  intros [= <-]. apply list_find_Some in Hfind as (Hi & Hid & _).
  split; [by eapply list_elem_of_lookup_2 | done].
Qed.

Lemma find_None n bs :
  find n bs = None ↔ ∀ b, b ∈ bs → IBook.id b ≠ n.
Proof.
  unfold find. rewrite fmap_None, list_find_None, Forall_forall. done.
Qed.

Lemma find_present n bs b :
  b ∈ bs → IBook.id b = n → is_Some (find n bs).
Proof.
  intros Hb Hid. destruct (find n bs) eqn:Hfind; [eauto|].
  rewrite find_None in Hfind. by destruct (Hfind b Hb).
Qed.

(** Where ids are unique, two records with one id sit at one place. *)
Lemma unique_lookup st i j b1 b2 :
  uniqueIds st →
  books st !! i = Some b1 → books st !! j = Some b2 →
  IBook.id b1 = IBook.id b2 → i = j.
Proof.
  intros Huniq H1 H2 Hid.
  apply (NoDup_lookup (ids st) i j (IBook.id b1)); [done | ..];
    unfold ids; rewrite list_lookup_fmap.
  - by rewrite H1.
  - by rewrite H2, Hid.
Qed.

Lemma find_unique st b :
  uniqueIds st → b ∈ books st → find (IBook.id b) (books st) = Some b.
Proof.
  intros Huniq Hb.
  destruct (find_present (IBook.id b) (books st) b Hb eq_refl) as [b' Hfind].
  rewrite Hfind. f_equal.
  unfold find in Hfind.
  destruct (list_find _ (books st)) as [[i x]|] eqn:Hlf; [|done].
  injection Hfind as ->. apply list_find_Some in Hlf as (Hi & Hid & _).
  apply list_elem_of_lookup_1 in Hb as [j Hj].
  assert (i = j) as -> by (by eapply unique_lookup).
  congruence.
Qed.

(** What [updateBook] does when some record has the id. *)
Lemma updateBook_found id u st index old :
  list_find (λ b, IBook.id b = id) (books st) = Some (index, old) →
  updateBook id u st =
    (Some (merge old u),
     mkState (<[index := merge old u]> (books st)) (nextBookId st)).
Proof. intros Hfind. unfold updateBook. by rewrite Hfind. Qed.

Lemma updateBook_absent id u st :
  (∀ b, b ∈ books st → IBook.id b ≠ id) → updateBook id u st = (None, st).
Proof.
  intros Habsent. unfold updateBook.
  destruct (list_find _ (books st)) as [[i x]|] eqn:Hfind; [|done].
  apply list_find_Some in Hfind as (Hi & Hid & _).
  destruct (Habsent x); [by eapply list_elem_of_lookup_2 | done].
Qed.

Lemma deleteBook_absent id st :
  (∀ b, b ∈ books st → IBook.id b ≠ id) → deleteBook id st = (false, st).
Proof.
  intros Habsent. unfold deleteBook.
  rewrite (Filtering.filter_all_in _ (books st)) by done.
  rewrite state_eta. f_equal. apply bool_decide_eq_false_2. lia.
Qed.

(** [deleteBook] on a store where exactly the record [b] has the id. *)
Lemma deleteBook_split id st l1 b l2 :
  books st = l1 ++ b :: l2 →
  IBook.id b = id →
  (∀ b', b' ∈ l1 ++ l2 → IBook.id b' ≠ id) →
  deleteBook id st = (true, mkState (l1 ++ l2) (nextBookId st)).
Proof.
  intros Hsplit Hid Hothers. unfold deleteBook. rewrite Hsplit.
  assert (filter (λ b, IBook.id b ≠ id) (l1 ++ b :: l2) = l1 ++ l2) as ->.
  { rewrite filter_app, filter_cons_False by (intros Hne; by apply Hne).
    rewrite <- filter_app. by apply Filtering.filter_all_in. }
  f_equal. apply bool_decide_eq_true_2. rewrite !length_app. simpl. lia.
Qed.

Lemma unique_split st l1 b l2 :
  uniqueIds st → books st = l1 ++ b :: l2 →
  ∀ b', b' ∈ l1 ++ l2 → IBook.id b' ≠ IBook.id b.
Proof.
  unfold uniqueIds, ids. intros Huniq Hsplit.
  rewrite Hsplit, fmap_app, fmap_cons in Huniq.
  apply NoDup_app in Huniq as (_ & Hl1 & Hl2).
  apply NoDup_cons in Hl2 as [Hl2 _].
  intros b' Hb' Heq. apply elem_of_app in Hb' as [Hb'|Hb'].
  - apply (Hl1 (IBook.id b')); [by apply list_elem_of_fmap_2 |].
    rewrite Heq. left.
  - apply Hl2. rewrite <- Heq. by apply list_elem_of_fmap_2.
Qed.

End RepositoryFacts.

(** ** The invariant of the store *)

Module Invariant.
Import BookRepository Service Spec.

Lemma initial_counter : nextBookId initial = 121.
Proof. reflexivity. Qed.

Lemma initial_unique : uniqueIds initial.
Proof. unfold uniqueIds. apply (bool_decide_unpack _). by vm_compute. Qed.

Lemma initial_below : belowCounter initial.
Proof. unfold belowCounter. simpl. repeat constructor. Qed.

Lemma addBook_eq data st :
  addBook data st =
    (fst (createBook data st),
     mkState (books st ++ [fst (createBook data st)]) (nextBookId st + 1)).
Proof. reflexivity. Qed.

Lemma ids_update id u st : ids (snd (updateBook id u st)) = ids st.
Proof.
  unfold updateBook, ids.
  destruct (list_find _ (books st)) as [[i old]|] eqn:Hfind; [|done].
  apply list_find_Some in Hfind as (Hi & _). simpl.
  rewrite list_fmap_insert. apply list_insert_id.
  by rewrite list_lookup_fmap, Hi.
Qed.

Lemma ids_delete id st : ids (snd (deleteBook id st)) `sublist_of` ids st.
Proof. unfold ids. simpl. apply fmap_sublist, sublist_filter. Qed.

Lemma counter_step st o : nextBookId st ≤ nextBookId (step st o).
Proof.
  destruct o as [data|id u|id]; simpl; [lia | | lia].
  unfold updateBook. destruct (list_find _ (books st)) as [[i old]|]; simpl; lia.
Qed.

Lemma counter_run st os : nextBookId st ≤ nextBookId (run st os).
Proof.
  revert st. induction os as [|o os IH]; intros st; simpl; [lia|].
  etrans; [apply (counter_step st o) | apply IH].
Qed.

Lemma unique_step st o :
  uniqueIds st → belowCounter st → uniqueIds (step st o).
Proof.
  intros Huniq Hbelow. destruct o as [data|id u|id]; unfold uniqueIds.
  - unfold ids. simpl. rewrite fmap_app. apply NoDup_app.
    split; [done|]. split; [|apply NoDup_singleton].
    intros x Hx Hin. apply list_elem_of_fmap_1 in Hx as (b & -> & Hb).
    apply list_elem_of_singleton in Hin.
    unfold belowCounter in Hbelow. rewrite Forall_forall in Hbelow.
    specialize (Hbelow b Hb). simpl in Hin. lia.
  - simpl. by rewrite ids_update.
  - simpl. eapply sublist_NoDup; [exact Huniq | apply ids_delete].
Qed.

Lemma below_step st o : belowCounter st → belowCounter (step st o).
Proof.
  unfold belowCounter. intros Hbelow. destruct o as [data|id u|id]; simpl.
  - apply Forall_app. split.
    + eapply Forall_impl; [done|]. simpl. intros; lia.
    + apply Forall_singleton. simpl. lia.
  - unfold updateBook.
    destruct (list_find _ (books st)) as [[i old]|] eqn:Hfind; [|done].
    apply list_find_Some in Hfind as (Hi & _). simpl.
    apply Forall_insert; [done|]. simpl.
    rewrite Forall_forall in Hbelow. apply Hbelow.
    by eapply list_elem_of_lookup_2.
  - rewrite Forall_forall in *. intros b Hb.
    apply list_elem_of_filter in Hb as [_ Hb]. by apply Hbelow.
Qed.

(** Every state of the running service has unique ids, all below the
    counter. *)
Lemma reachable_invariant st : reachable st → uniqueIds st ∧ belowCounter st.
Proof.
  induction 1 as [|st o _ [Huniq Hbelow]].
  - split; [apply initial_unique | apply initial_below].
  - split; [by apply unique_step | by apply below_step].
Qed.

Lemma reachable_run st os : reachable st → reachable (run st os).
Proof.
  revert st. induction os as [|o os IH]; intros st Hst; simpl; [done|].
  apply IH. by constructor.
Qed.

(** C3. In every state of the running service the ids are unique, and
    every create, update and delete leaves them unique. The counter
    starts at 121, one above the greatest preloaded id. A create, at any
    later time, succeeds: it returns a record whose id is greater than
    every id that was in the store before, at that time or at any
    earlier one, and than every id a create has handed out before;
    the record is not borrowed and carries the four fields of the
    input, it is appended at the end of the store, and the counter
    moves up by one. *)
Theorem ids_unique_and_increasing (st : state) :
  reachable st →
  uniqueIds st ∧
  (∀ o, uniqueIds (step st o)) ∧
  (nextBookId initial = 121 ∧
   (∀ b, b ∈ preloaded → IBook.id b < 121) ∧
   (∃ b, b ∈ preloaded ∧ IBook.id b + 1 = 121)) ∧
  (∀ os data,
     let later := run st os in
     ∃ new,
       addBook data later =
         (new, mkState (books later ++ [new]) (nextBookId later + 1)) ∧
       IBook.id new = nextBookId later ∧
       IBook.isBorrowed new = false ∧
       IBook.title new = IBookCreationData.title data ∧
       IBook.author new = IBookCreationData.author data ∧
       IBook.yearOfRelease new = IBookCreationData.yearOfRelease data ∧
       IBook.isbn new = IBookCreationData.isbn data ∧
       (∀ b, b ∈ books st → IBook.id b < IBook.id new) ∧
       (∀ b, b ∈ books later → IBook.id b < IBook.id new)) ∧
  (∀ data0 os data,
     IBook.id (fst (addBook data0 st)) <
     IBook.id (fst (addBook data (run (snd (addBook data0 st)) os)))).
Proof.
  intros Hst. destruct (reachable_invariant st Hst) as [Huniq Hbelow].
  split; [done|]. split; [intros o; by apply unique_step|].
  split.
  { split; [reflexivity|]. split.
    - pose proof initial_below as Hinit. unfold belowCounter in Hinit.
      rewrite Forall_forall in Hinit. exact Hinit.
    - exists (IBook.mk 120 "Fahrenheit 451" "Ray Bradbury" 1953 "978-1451673319" false).
      split; [|reflexivity].
      do 19 apply list_elem_of_further. apply list_elem_of_here. }
  split.
  - intros os data later.
    exists (fst (createBook data later)).
    split; [apply addBook_eq|]. repeat (split; [reflexivity|]).
    pose proof (counter_run st os) as Hmono.
    destruct (reachable_invariant later (reachable_run st os Hst)) as [_ Hlater].
    unfold belowCounter in Hbelow, Hlater. rewrite Forall_forall in Hbelow, Hlater.
    split; intros b Hb; simpl.
    + specialize (Hbelow b Hb). fold later in Hmono. lia.
    + by apply Hlater.
  - intros data0 os data. simpl.
    pose proof (counter_run (snd (addBook data0 st)) os) as Hmono.
    simpl in Hmono. lia.
Qed.

Lemma ids_unique_and_increasing_witness :
  uniqueIds initial ∧
  IBook.id (fst (addBook (IBookCreationData.mk "Emma" "Jane Austen" 1815 "978-0141439587")
                   (run initial [Delete 120]))) = 121.
Proof.
  destruct (ids_unique_and_increasing initial reachable_initial)
    as (Huniq & _).
  split; [exact Huniq | reflexivity].
Defined.

End Invariant.

(** ** Update and delete *)

Module Mutation.
Import BookRepository Service Spec RepositoryFacts.

Lemma orString_falsy o old : falsyString o → Js.orString o old = old.
Proof. by intros [-> | ->]. Qed.

Lemma orString_truthy v old :
  v ≠ EmptyString → Js.orString (Some v) old = v.
Proof. by destruct v. Qed.

Lemma orNumber_falsy o old : falsyNumber o → Js.orNumber o old = old.
Proof. by intros [-> | ->]. Qed.

Lemma orNumber_truthy v old : v ≠ 0 → Js.orNumber (Some v) old = v.
Proof. by destruct v. Qed.

(** C2. For every record of the store and every payload, the update by
    the id of that record succeeds and rewrites, in its place, the
    record the lookup finds under that id (the record itself when ids
    are unique). In the record it writes and returns, [id] and
    [isBorrowed] are those of the old record whatever the payload is;
    each of [title], [author], [yearOfRelease] and [isbn] is the old
    value when the member of the payload is falsy (missing, the empty
    string, zero) and the new value when it is truthy, each member on
    its own. The counter is left as it was. *)
Theorem updateBook_merges (st : state) (b : IBook.t) (u : IBookUpdateData.t) :
  b ∈ books st →
  ∃ index old new,
    updateBook (IBook.id b) u st =
      (Some new, mkState (<[index := new]> (books st)) (nextBookId st)) ∧
    books st !! index = Some old ∧
    IBook.id old = IBook.id b ∧
    (uniqueIds st → old = b) ∧
    IBook.id new = IBook.id old ∧
    IBook.isBorrowed new = IBook.isBorrowed old ∧
    (falsyString (IBookUpdateData.title u) → IBook.title new = IBook.title old) ∧
    (∀ v, IBookUpdateData.title u = Some v → v ≠ EmptyString → IBook.title new = v) ∧
    (falsyString (IBookUpdateData.author u) → IBook.author new = IBook.author old) ∧
    (∀ v, IBookUpdateData.author u = Some v → v ≠ EmptyString → IBook.author new = v) ∧
    (falsyNumber (IBookUpdateData.yearOfRelease u) →
     IBook.yearOfRelease new = IBook.yearOfRelease old) ∧
    (∀ v, IBookUpdateData.yearOfRelease u = Some v → v ≠ 0 →
     IBook.yearOfRelease new = v) ∧
    (falsyString (IBookUpdateData.isbn u) → IBook.isbn new = IBook.isbn old) ∧
    (∀ v, IBookUpdateData.isbn u = Some v → v ≠ EmptyString → IBook.isbn new = v).
Proof.
  intros Hb.
  destruct (list_find_elem_of (λ x, IBook.id x = IBook.id b) (books st) b Hb eq_refl)
    as [[index old] Hfind].
  exists index, old, (merge old u).
  split; [by apply updateBook_found|].
  apply list_find_Some in Hfind as (Hindex & Hid & _).
  split; [done|]. split; [done|]. split.
  { intros Huniq. apply list_elem_of_lookup_1 in Hb as [j Hj].
    assert (index = j) as -> by (by eapply unique_lookup).
    congruence. }
  split; [reflexivity|]. split; [reflexivity|]. simpl.
  repeat split.
  - apply orString_falsy.
  - intros v -> Hv. by apply orString_truthy.
  - apply orString_falsy.
  - intros v -> Hv. by apply orString_truthy.
  - apply orNumber_falsy.
  - intros v -> Hv. by apply orNumber_truthy.
  - apply orString_falsy.
  - intros v -> Hv. by apply orString_truthy.
Qed.

Lemma updateBook_merges_witness :
  ∃ index old new,
    updateBook 105 (IBookUpdateData.mk (Some EmptyString) (Some "F. Herbert") (Some 0) None) initial =
      (Some new, mkState (<[index := new]> (books initial)) (nextBookId initial)) ∧
    books initial !! index = Some old ∧
    IBook.title new = "Dune" ∧ IBook.author new = "F. Herbert" ∧
    IBook.yearOfRelease new = 1965 ∧ IBook.isBorrowed new = true.
Proof.
  destruct (updateBook_merges initial
              (IBook.mk 105 "Dune" "Frank Herbert" 1965 "978-0441172719" true)
              (IBookUpdateData.mk (Some EmptyString) (Some "F. Herbert") (Some 0) None))
    as (index & old & new & Hupd & Hold & Hid & Hsame & _ & Hborrowed &
        Htitle & _ & _ & Hauthor & Hyear & _).
  { do 4 apply list_elem_of_further. apply list_elem_of_here. }
  exists index, old, new. split; [exact Hupd|]. split; [exact Hold|].
  rewrite (Htitle (or_intror eq_refl)), (Hauthor _ eq_refl), (Hyear (or_intror eq_refl)),
    Hborrowed, (Hsame Invariant.initial_unique) by discriminate.
  repeat split.
Defined.

(** C9. When no record has the id, the update answers [null] and the
    delete answers [false], and each leaves the store and the counter
    exactly as they were. *)
Theorem absent_id_changes_nothing (st : state) (id : Z) (u : IBookUpdateData.t) :
  (∀ b, b ∈ books st → IBook.id b ≠ id) →
  updateBook id u st = (None, st) ∧ deleteBook id st = (false, st).
Proof.
  intros Habsent. split.
  - by apply updateBook_absent.
  - by apply deleteBook_absent.
Qed.

Lemma absent_id_changes_nothing_witness :
  updateBook 500 (IBookUpdateData.mk (Some "Emma") None None None) initial = (None, initial) ∧
  deleteBook 500 initial = (false, initial).
Proof.
  apply (absent_id_changes_nothing initial 500).
  intros b Hb. apply (bool_decide_unpack _).
  revert b Hb. apply Forall_forall. repeat constructor.
Defined.

(** C5. In every state of the running service and for every id: when a
    record has the id, the delete takes exactly that record out, the
    others staying in their order, so that the store is one record
    shorter and no record has the id any more, and it answers [true];
    when no record has the id it answers [false] and the store is as
    it was. The answer is the comparison of the two lengths. *)
Theorem deleteBook_removes_one (st : state) (id : Z) :
  reachable st →
  (fst (deleteBook id st) =
     bool_decide (length (books (snd (deleteBook id st))) < length (books st))%nat) ∧
  (∀ b, b ∈ books st → IBook.id b = id →
     ∃ l1 l2,
       books st = l1 ++ b :: l2 ∧
       deleteBook id st = (true, mkState (l1 ++ l2) (nextBookId st)) ∧
       (length (l1 ++ l2) + 1 = length (books st))%nat ∧
       (∀ b', b' ∈ l1 ++ l2 → IBook.id b' ≠ id)) ∧
  ((∀ b, b ∈ books st → IBook.id b ≠ id) → deleteBook id st = (false, st)).
Proof.
  intros Hst. destruct (Invariant.reachable_invariant st Hst) as [Huniq _].
  split; [reflexivity|]. split.
  - intros b Hb Hid.
    destruct (list_elem_of_split _ _ Hb) as (l1 & l2 & Hsplit).
    exists l1, l2.
    pose proof (unique_split st l1 b l2 Huniq Hsplit) as Hothers.
    rewrite Hid in Hothers.
    split; [done|]. split; [by eapply deleteBook_split|].
    split; [|done]. rewrite Hsplit, !length_app. simpl. lia.
  - apply deleteBook_absent.
Qed.

Lemma deleteBook_removes_one_witness :
  fst (deleteBook 105 initial) = true ∧
  (length (books (snd (deleteBook 105 initial))) + 1 = length (books initial))%nat.
Proof.
  destruct (deleteBook_removes_one initial 105 reachable_initial)
    as (_ & Hpresent & _).
  destruct (Hpresent (IBook.mk 105 "Dune" "Frank Herbert" 1965 "978-0441172719" true))
    as (l1 & l2 & _ & Hdel & Hlen & _).
  { do 4 apply list_elem_of_further. apply list_elem_of_here. }
  { reflexivity. }
  rewrite Hdel. split; [reflexivity | exact Hlen].
Defined.

End Mutation.

(** ** Lookup by id *)

Module Lookup.
Import BookRepository Service Spec RepositoryFacts.

(** C6. A number is looked up as it is; a string is first read by
    [parseInt], and the numeral of an integer is read as that integer.
    The answer is the record the store holds under the id: a record of
    the store with that id when there is one (the only one when ids are
    unique). When no record has the id, and when the string cannot be
    read, the answer is the one value [undefined]: the result type has
    no other way to report a failure. *)
Theorem getBookById_result (st : state) :
  (∀ n, getBookById (IdNumber n) st = find n (books st)) ∧
  (∀ n, getBookById (IdString (Js.String_ n)) st = find n (books st)) ∧
  (∀ s n, Js.parseInt s = Some n →
     getBookById (IdString s) st = find n (books st)) ∧
  (∀ s, Js.parseInt s = None → getBookById (IdString s) st = None) ∧
  (∀ n b, find n (books st) = Some b → b ∈ books st ∧ IBook.id b = n) ∧
  (∀ n b, b ∈ books st → IBook.id b = n → is_Some (find n (books st))) ∧
  (∀ b, uniqueIds st → b ∈ books st → find (IBook.id b) (books st) = Some b) ∧
  (∀ n, find n (books st) = None ↔ ∀ b, b ∈ books st → IBook.id b ≠ n).
Proof.
  split; [done|].
  split; [intros n; unfold getBookById; by rewrite JsFacts.parseInt_String_|].
  split; [intros s n Hs; unfold getBookById; by rewrite Hs|].
  split; [intros s Hs; unfold getBookById; by rewrite Hs|].
  split; [intros n b; apply find_Some|].
  split; [intros n b; apply find_present|].
  split; [intros b Huniq Hb; by apply find_unique|].
  intros n. apply find_None.
Qed.

Lemma getBookById_result_witness :
  getBookById (IdString "104") initial =
    Some (IBook.mk 104 "The Hobbit" "J.R.R. Tolkien" 1937 "978-0618260300" false) ∧
  getBookById (IdString "abc") initial = None ∧
  getBookById (IdString "999") initial = None.
Proof.
  destruct (getBookById_result initial)
    as (_ & _ & Hread & Hnan & _ & _ & Hunique & Habsent).
  split; [|split].
  - rewrite (Hread "104" 104 eq_refl).
    apply (Hunique (IBook.mk 104 "The Hobbit" "J.R.R. Tolkien" 1937 "978-0618260300" false)
             Invariant.initial_unique).
    do 3 apply list_elem_of_further. apply list_elem_of_here.
  - apply Hnan. reflexivity.
  - rewrite (Hread "999" 999 eq_refl). apply Habsent.
    apply Forall_forall. repeat constructor; discriminate.
Defined.

End Lookup.

(** ** The routes on one book *)

Module Routes.
Import BookRepository Service Spec RepositoryFacts.
Import App.

Lemma atLeastOne_Some id n :
  atLeastOne (Js.parseInt id) = Some n ↔ validId id n.
Proof.
  unfold atLeastOne, validId. destruct (Js.parseInt id) as [m|].
  - destruct (Z.ltb_spec m 1); split.
    + discriminate.
    + intros [[= ->] Hn]. lia.
    + intros [= ->]. split; [reflexivity | lia].
    + intros [[= ->] _]. reflexivity.
  - split; [discriminate | intros [Hparse _]; discriminate].
Qed.

Lemma atLeastOne_None id :
  atLeastOne (Js.parseInt id) = None ↔ ¬ ∃ n, validId id n.
Proof.
  destruct (atLeastOne (Js.parseInt id)) as [n|] eqn:Hid.
  - apply atLeastOne_Some in Hid. split; [done|]. intros Hno. destruct Hno. eauto.
  - split; [|done]. intros _ [n Hn]. apply atLeastOne_Some in Hn. congruence.
Qed.

Lemma keys_nil u : length (keys u) = 0%nat ↔ keys u = [].
Proof. by destruct (keys u). Qed.

Lemma atLeastOne_bound o n : atLeastOne o = Some n → o = Some n ∧ 1 ≤ n.
Proof.
  destruct o as [m|]; simpl; [|discriminate].
  destruct (Z.ltb_spec m 1); [discriminate|].
  intros [= ->]. split; [reflexivity | lia].
Qed.

(** The list route only hands the repository a page number and a page
    size of at least 1. *)
Lemma getBooks_page_bounds query st :
  status (getBooks query st) = 200 →
  ∃ page pageSize,
    1 ≤ page ∧ 1 ≤ pageSize ∧
    getBooks query st =
      mkResponse 200
        (Page (getBooksPaginatedAndFiltered
                 (Filters.mk (IBookQuery.title query) (IBookQuery.author query)
                    (IBookQuery.year query) (IBookQuery.isBorrowed query))
                 page pageSize st)).
Proof.
  unfold getBooks.
  destruct (atLeastOne (Js.parseInt (Js.orString (IBookQuery.page query) "1")))
    as [page|] eqn:Hpage; [|discriminate].
  destruct (atLeastOne (Js.parseInt (Js.orString (IBookQuery.size query) "10")))
    as [pageSize|] eqn:Hsize; [|discriminate].
  intros _. exists page, pageSize.
  apply atLeastOne_bound in Hpage as [_ Hpage].
  apply atLeastOne_bound in Hsize as [_ Hsize].
  done.
Qed.

(** The status of the three routes and the answers to a valid id. *)
Lemma book_routes_cases (id : string) (st : state) :
  (status (getBook id st) = 400 ↔ ¬ ∃ n, validId id n) ∧
  (∀ n, validId id n → find n (books st) = None →
     getBook id st = notFound id) ∧
  (∀ n b, validId id n → find n (books st) = Some b →
     getBook id st = mkResponse 200 (Book b)) ∧
  (status (fst (deleteBook id st)) = 400 ↔ ¬ ∃ n, validId id n) ∧
  (∀ n, validId id n → find n (books st) = None →
     deleteBook id st = (notFound id, st)) ∧
  (∀ n b, validId id n → find n (books st) = Some b →
     deleteBook id st = (mkResponse 204 Empty, snd (BookRepository.deleteBook n st))) ∧
  (∀ u, (status (fst (putBook id u st)) = 400 ↔
           (¬ ∃ n, validId id n) ∨ keys u = [])) ∧
  (∀ u n, validId id n → keys u ≠ [] → find n (books st) = None →
     putBook id u st = (notFound id, st)) ∧
  (∀ u n b, validId id n → keys u ≠ [] → find n (books st) = Some b →
     putBook id u st =
       (mkResponse 200 (Book (merge b u)), snd (updateBook n u st))).
Proof.
  repeat split.
  - unfold getBook. destruct (atLeastOne (Js.parseInt id)) as [n|] eqn:Hid.
    + apply atLeastOne_Some in Hid as [Hparse Hn].
      unfold getBookById. rewrite Hparse.
      by destruct (find n (books st)).
    + intros _. by apply atLeastOne_None.
  - intros Hno. apply atLeastOne_None in Hno. unfold getBook. by rewrite Hno.
  - intros n Hid Hfind. pose proof Hid as [Hparse _].
    apply atLeastOne_Some in Hid.
    unfold getBook, getBookById. by rewrite Hid, Hparse, Hfind.
  - intros n b Hid Hfind. pose proof Hid as [Hparse _].
    apply atLeastOne_Some in Hid.
    unfold getBook, getBookById. by rewrite Hid, Hparse, Hfind.
  - unfold deleteBook. destruct (atLeastOne (Js.parseInt id)) as [n|] eqn:Hid.
    + by destruct (BookRepository.deleteBook n st) as [[|] st'].
    + intros _. by apply atLeastOne_None.
  - intros Hno. apply atLeastOne_None in Hno. unfold deleteBook. by rewrite Hno.
  - intros n Hid Hfind. apply atLeastOne_Some in Hid.
    unfold deleteBook. rewrite Hid.
    rewrite find_None in Hfind. by rewrite deleteBook_absent.
  - intros n b Hid Hfind. apply atLeastOne_Some in Hid.
    unfold deleteBook. rewrite Hid.
    apply find_Some in Hfind as [Hb Hn].
    assert (fst (BookRepository.deleteBook n st) = true) as Htrue.
    { apply bool_decide_eq_true_2.
      apply (length_filter_lt _ _ b); [done|]. intros Hne. by apply Hne. }
    by destruct (BookRepository.deleteBook n st) as [[|] st'].
  - unfold putBook. destruct (atLeastOne (Js.parseInt id)) as [n|] eqn:Hid.
    + case_bool_decide as Hkeys.
      * intros _. right. by apply keys_nil.
      * by destruct (updateBook n u st) as [[new|] st'].
    + intros _. left. by apply atLeastOne_None.
  - intros [Hno|Hkeys]; unfold putBook.
    + apply atLeastOne_None in Hno. by rewrite Hno.
    + destruct (atLeastOne (Js.parseInt id)); [|done].
      rewrite bool_decide_eq_true_2; [done | by apply keys_nil].
  - intros u n Hid Hkeys Hfind. apply atLeastOne_Some in Hid.
    unfold putBook. rewrite Hid.
    rewrite bool_decide_eq_false_2 by (by rewrite keys_nil).
    rewrite find_None in Hfind. by rewrite updateBook_absent.
  - intros u n b Hid Hkeys Hfind. apply atLeastOne_Some in Hid.
    unfold putBook. rewrite Hid.
    rewrite bool_decide_eq_false_2 by (by rewrite keys_nil).
    unfold find in Hfind.
    destruct (list_find _ (books st)) as [[i x]|] eqn:Hlf; [|done].
    injection Hfind as ->.
    by rewrite (updateBook_found _ _ _ _ _ Hlf).
Qed.


(** C7, as amended. GET and DELETE on a book answer 400, with the error
    body that names the id, exactly when the id parameter does not read
    as an integer of at least 1. PUT answers 400 exactly when the id
    does not read so (same error body) or the body has no member (error
    body [No update data provided.]). A request answered 400 leaves the
    state as it was. With a valid id (and, for PUT, a body with a
    member): when no record has the id the answer is 404 with the error
    body that names the id, and the store is as it was; otherwise GET
    answers 200 with the record, PUT answers 200 with the merged record,
    and DELETE answers 204 with an empty body. *)
Theorem book_routes (id : string) (st : state) :
  (status (getBook id st) = 400 ↔ ¬ ∃ n, validId id n) ∧
  (∀ n, validId id n → find n (books st) = None →
     getBook id st = notFound id) ∧
  (∀ n b, validId id n → find n (books st) = Some b →
     getBook id st = mkResponse 200 (Book b)) ∧
  (status (fst (deleteBook id st)) = 400 ↔ ¬ ∃ n, validId id n) ∧
  (∀ n, validId id n → find n (books st) = None →
     deleteBook id st = (notFound id, st)) ∧
  (∀ n b, validId id n → find n (books st) = Some b →
     deleteBook id st = (mkResponse 204 Empty, snd (BookRepository.deleteBook n st))) ∧
  (∀ u, (status (fst (putBook id u st)) = 400 ↔
           (¬ ∃ n, validId id n) ∨ keys u = [])) ∧
  (∀ u n, validId id n → keys u ≠ [] → find n (books st) = None →
     putBook id u st = (notFound id, st)) ∧
  (∀ u n b, validId id n → keys u ≠ [] → find n (books st) = Some b →
     putBook id u st =
       (mkResponse 200 (Book (merge b u)), snd (updateBook n u st))) ∧
  ((¬ ∃ n, validId id n) →
     getBook id st =
       mkResponse 400
         (Error ("Invalid Book ID provided: " +:+ id +:+ ". Must be a positive integer."))) ∧
  ((¬ ∃ n, validId id n) →
     deleteBook id st =
       (mkResponse 400
          (Error ("Invalid Book ID provided: " +:+ id +:+ ". Must be a positive integer.")),
        st)) ∧
  (∀ u, (¬ ∃ n, validId id n) →
     putBook id u st =
       (mkResponse 400
          (Error ("Invalid Book ID provided: " +:+ id +:+ ". Must be a positive integer.")),
        st)) ∧
  (∀ u n, validId id n → keys u = [] →
     putBook id u st = (mkResponse 400 (Error "No update data provided."), st)) ∧
  notFound id = mkResponse 404 (Error ("Book with ID " +:+ id +:+ " not found")).
Proof.
  destruct (book_routes_cases id st)
    as (H1 & H2 & H3 & H4 & H5 & H6 & H7 & H8 & H9).
  do 9 (split; [assumption|]).
  split; [|split; [|split; [|split; [|reflexivity]]]].
  - intros Hno. apply atLeastOne_None in Hno. unfold getBook. by rewrite Hno.
  - intros Hno. apply atLeastOne_None in Hno. unfold deleteBook. by rewrite Hno.
  - intros u Hno. apply atLeastOne_None in Hno. unfold putBook. by rewrite Hno.
  - intros u n Hid Hkeys. apply atLeastOne_Some in Hid.
    unfold putBook. rewrite Hid.
    rewrite bool_decide_eq_true_2; [done | by apply keys_nil].
Qed.

Lemma book_routes_witness :
  getBook "104" initial =
    mkResponse 200 (Book (IBook.mk 104 "The Hobbit" "J.R.R. Tolkien" 1937 "978-0618260300" false)) ∧
  getBook "999" initial = mkResponse 404 (Error "Book with ID 999 not found") ∧
  status (getBook "0" initial) = 400 ∧
  getBook "0" initial =
    mkResponse 400 (Error "Invalid Book ID provided: 0. Must be a positive integer.").
Proof.
  destruct (book_routes "104" initial) as (_ & _ & Hfound & _).
  destruct (book_routes "999" initial) as (_ & Habsent & _).
  destruct (book_routes "0" initial)
    as (Hinvalid & _ & _ & _ & _ & _ & _ & _ & _ & Hbody & _).
  assert (¬ ∃ n, validId "0" n) as Hzero.
  { intros [n [Hparse Hn]]. vm_compute in Hparse. injection Hparse as <-. lia. }
  split; [|split; [|split]].
  - apply (Hfound 104); [split; [reflexivity | lia] | reflexivity].
  - apply (Habsent 999); [split; [reflexivity | lia] | reflexivity].
  - apply Hinvalid. exact Hzero.
  - apply Hbody. exact Hzero.
Defined.

(** The specification gives PUT the rule of GET: 400 exactly when the
    id is not valid. A PUT on [/books/101] with the body [{}] has a
    valid id and is answered 400. *)
Lemma put_empty_body :
  let empty := IBookUpdateData.mk None None None None in
  validId "101" 101 ∧
  fst (putBook "101" empty initial) = mkResponse 400 (Error "No update data provided.") ∧
  ¬ (status (fst (putBook "101" empty initial)) = 400 ↔ ¬ ∃ n, validId "101" n).
Proof.
  split; [split; [reflexivity | lia]|]. split; [reflexivity|].
  intros [Hto _]. apply Hto; [reflexivity|].
  exists 101. split; [reflexivity | lia].
Qed.

End Routes.

(** ** The example of the specification *)

Module PreloadedExample.
Import BookRepository.

(** C8. On the preloaded store, the author filter [tolkien] with page 1
    of size 2 returns two books, both by J.R.R. Tolkien, with
    [totalItems = 3] and [totalPages = 2]. *)
Theorem tolkien_first_page :
  let r := getBooksPaginatedAndFiltered
             (Filters.mk None (Some "tolkien") None None) 1 2 initial in
  length (IBookResponse.books r) = 2%nat ∧
  Forall (λ b, IBook.author b = "J.R.R. Tolkien") (IBookResponse.books r) ∧
  IBook.id <$> IBookResponse.books r = [104; 107] ∧
  IPaginationResult.totalItems (IBookResponse.pagination r) = 3 ∧
  IPaginationResult.totalPages (IBookResponse.pagination r) = 2 ∧
  IPaginationResult.currentPage (IBookResponse.pagination r) = 1 ∧
  IPaginationResult.pageSize (IBookResponse.pagination r) = 2.
Proof.
  vm_compute. repeat split. repeat constructor.
Qed.

End PreloadedExample.

(** ** How the repository functions compose *)

Module Composition.
Import BookRepository Service Spec RepositoryFacts.

Lemma find_cons n x l :
  find n (x :: l) = if decide (IBook.id x = n) then Some x else find n l.
Proof.
  unfold find. simpl. case_decide; [done|].
  by destruct (list_find _ l) as [[i y]|].
Qed.

Lemma find_app_l n l1 l2 b :
  find n l1 = Some b → find n (l1 ++ l2) = Some b.
Proof.
  induction l1 as [|x l1 IH]; [done|]. simpl.
  rewrite !find_cons. by case_decide.
Qed.

Lemma find_app_r n l1 l2 :
  find n l1 = None → find n (l1 ++ l2) = find n l2.
Proof.
  induction l1 as [|x l1 IH]; [done|]. simpl.
  rewrite !find_cons. by case_decide.
Qed.

Lemma find_filter_other n m l :
  n ≠ m → find n (filter (λ b, IBook.id b ≠ m) l) = find n l.
Proof.
  intros Hnm. induction l as [|x l IH]; [done|].
  rewrite find_cons. destruct (decide (IBook.id x ≠ m)) as [Hx|Hx].
  - rewrite filter_cons_True, find_cons, IH by done. done.
  - rewrite filter_cons_False, IH by done.
    case_decide; [|done]. destruct Hx. congruence.
Qed.

Lemma find_filter_same m l :
  find m (filter (λ b, IBook.id b ≠ m) l) = None.
Proof.
  apply find_None. intros b Hb. by apply list_elem_of_filter in Hb as [Hb _].
Qed.

(** Writing a record over the first one of its id. *)
Lemma find_insert_first n m l i old new :
  list_find (λ b, IBook.id b = m) l = Some (i, old) →
  IBook.id new = m →
  find n (<[i := new]> l) = if decide (n = m) then Some new else find n l.
Proof.
  revert i. induction l as [|x l IH]; intros i Hfind Hnew; [done|].
  simpl in Hfind. destruct (decide (IBook.id x = m)) as [Hx|Hx].
  - injection Hfind as <- <-. simpl. rewrite !find_cons.
    repeat case_decide; congruence.
  - destruct (list_find _ l) as [[j y]|] eqn:Hl; [|done].
    injection Hfind as <- <-. simpl. rewrite !find_cons.
    rewrite (IH j eq_refl Hnew).
    repeat case_decide; congruence.
Qed.

Lemma find_counter st : belowCounter st → find (nextBookId st) (books st) = None.
Proof.
  unfold belowCounter. rewrite Forall_forall. intros Hbelow.
  apply find_None. intros b Hb. specialize (Hbelow b Hb). lia.
Qed.

(** X1. In every state of the running service, the record [addBook]
    returns is the one [getBookById] then finds under its id, given as a
    number or as its decimal numeral. *)
Theorem addBook_then_getBookById (st : state) (data : IBookCreationData.t) :
  reachable st →
  let new := fst (addBook data st) in
  let st' := snd (addBook data st) in
  getBookById (IdNumber (IBook.id new)) st' = Some new ∧
  getBookById (IdString (Js.String_ (IBook.id new))) st' = Some new.
Proof.
  intros Hst new st'.
  destruct (Invariant.reachable_invariant st Hst) as [_ Hbelow].
  assert (find (IBook.id new) (books st') = Some new) as Hfind.
  { subst new st'. simpl.
    rewrite find_app_r by by apply find_counter.
    rewrite find_cons. simpl. by case_decide. }
  split; [done|].
  unfold getBookById. by rewrite JsFacts.parseInt_String_.
Qed.

Lemma addBook_then_getBookById_witness :
  let data := IBookCreationData.mk "Emma" "Jane Austen" 1815 "978-0141439587" in
  getBookById (IdString "121") (snd (addBook data initial)) =
    Some (IBook.mk 121 "Emma" "Jane Austen" 1815 "978-0141439587" false).
Proof.
  apply (addBook_then_getBookById initial
           (IBookCreationData.mk "Emma" "Jane Austen" 1815 "978-0141439587")).
  apply reachable_initial.
Defined.

(** X2. In every state whatever, [addBook] leaves every other lookup as
    it was: an id other than the counter is found after the call exactly
    as before it, and no record of the store is moved or changed. *)
Theorem addBook_keeps_lookups (st : state) (data : IBookCreationData.t) (n : Z) :
  n ≠ nextBookId st →
  let st' := snd (addBook data st) in
  getBookById (IdNumber n) st' = getBookById (IdNumber n) st ∧
  take (length (books st)) (books st') = books st ∧
  length (books st') = S (length (books st)).
Proof.
  intros Hn st'. subst st'. simpl. split; [|split].
  - unfold getBookById. simpl.
    destruct (find n (books st)) as [b|] eqn:Hfind.
    + by apply find_app_l.
    + rewrite find_app_r by done. rewrite find_cons. simpl.
      case_decide; [congruence | done].
  - by rewrite take_app_length.
  - rewrite length_app. simpl. lia.
Qed.

Lemma addBook_keeps_lookups_witness :
  let data := IBookCreationData.mk "Emma" "Jane Austen" 1815 "978-0141439587" in
  getBookById (IdNumber 104) (snd (addBook data initial)) =
    getBookById (IdNumber 104) initial.
Proof.
  apply (addBook_keeps_lookups initial
           (IBookCreationData.mk "Emma" "Jane Austen" 1815 "978-0141439587") 104).
  discriminate.
Defined.

Lemma list_find_insert_first m (l : list IBook.t) i old new :
  list_find (λ b, IBook.id b = m) l = Some (i, old) →
  IBook.id new = m →
  list_find (λ b, IBook.id b = m) (<[i := new]> l) = Some (i, new).
Proof.
  revert i. induction l as [|x l IH]; intros i Hfind Hnew; [done|].
  simpl in Hfind. destruct (decide (IBook.id x = m)) as [Hx|Hx].
  - injection Hfind as <- <-. simpl. by rewrite decide_True.
  - destruct (list_find _ l) as [[j y]|] eqn:Hl; [|done].
    injection Hfind as <- <-. simpl.
    by rewrite decide_False, (IH j eq_refl Hnew).
Qed.

Lemma orString_twice o old : Js.orString o (Js.orString o old) = Js.orString o old.
Proof. by destruct o as [[|c s]|]. Qed.

Lemma orNumber_twice o old : Js.orNumber o (Js.orNumber o old) = Js.orNumber o old.
Proof. by destruct o as [[|p|p]|]. Qed.

Lemma merge_twice old u : merge (merge old u) u = merge old u.
Proof.
  unfold merge. simpl. by rewrite !orString_twice, orNumber_twice.
Qed.

Lemma merge_falsy old u :
  falsyString (IBookUpdateData.title u) →
  falsyString (IBookUpdateData.author u) →
  falsyNumber (IBookUpdateData.yearOfRelease u) →
  falsyString (IBookUpdateData.isbn u) →
  merge old u = old.
Proof.
  intros Ht Ha Hy Hi. unfold merge.
  rewrite !Mutation.orString_falsy, Mutation.orNumber_falsy by done.
  by destruct old.
Qed.

(** X3. When [updateBook] returns a record, [getBookById] then finds
    that record under the id, every other id is found exactly as before,
    and the ids of the store, their order, the number of records and the
    counter are as before. *)
Theorem updateBook_then_getBookById (st st' : state) (id : Z)
    (u : IBookUpdateData.t) (new : IBook.t) :
  updateBook id u st = (Some new, st') →
  getBookById (IdNumber id) st' = Some new ∧
  (∀ n, n ≠ id → getBookById (IdNumber n) st' = getBookById (IdNumber n) st) ∧
  ids st' = ids st ∧
  length (books st') = length (books st) ∧
  nextBookId st' = nextBookId st.
Proof.
  intros Hupd.
  pose proof (Invariant.ids_update id u st) as Hids. rewrite Hupd in Hids.
  unfold updateBook in Hupd.
  destruct (list_find _ (books st)) as [[i old]|] eqn:Hfind; [|done].
  injection Hupd as <- <-. unfold getBookById. simpl.
  pose proof Hfind as Hold. apply list_find_Some in Hold as (_ & Hold & _).
  split; [|split; [|split; [done | split; [apply length_insert | done]]]].
  - rewrite (find_insert_first id id _ i old) by done. by rewrite decide_True.
  - intros n Hn. rewrite (find_insert_first n id _ i old) by done.
    by rewrite decide_False.
Qed.

Lemma updateBook_then_getBookById_witness :
  let u := IBookUpdateData.mk (Some "Dune Messiah") None (Some 1969) None in
  getBookById (IdNumber 105) (snd (updateBook 105 u initial)) =
    Some (IBook.mk 105 "Dune Messiah" "Frank Herbert" 1969 "978-0441172719" true).
Proof.
  apply (updateBook_then_getBookById initial _ 105
           (IBookUpdateData.mk (Some "Dune Messiah") None (Some 1969) None)).
  reflexivity.
Defined.

(** X4. Sending the same update twice is the same as sending it once:
    the second call returns what the first returned and leaves the state
    the first call left. *)
Theorem updateBook_twice (st : state) (id : Z) (u : IBookUpdateData.t) :
  updateBook id u (snd (updateBook id u st)) = updateBook id u st.
Proof.
  unfold updateBook at 2 3.
  destruct (list_find _ (books st)) as [[i old]|] eqn:Hfind; simpl.
  - pose proof Hfind as Hold. apply list_find_Some in Hold as (_ & Hold & _).
    unfold updateBook. simpl.
    rewrite (list_find_insert_first id _ i old (merge old u) Hfind Hold).
    by rewrite merge_twice, list_insert_insert_eq.
  - unfold updateBook. by rewrite Hfind.
Qed.

(** X5. A payload whose four members are all falsy (missing, empty
    string, zero) changes nothing: [updateBook] returns the record the
    store holds under the id, or [null] when there is none, and the state
    is as it was. *)
Theorem updateBook_falsy_payload (st : state) (id : Z) (u : IBookUpdateData.t) :
  falsyString (IBookUpdateData.title u) →
  falsyString (IBookUpdateData.author u) →
  falsyNumber (IBookUpdateData.yearOfRelease u) →
  falsyString (IBookUpdateData.isbn u) →
  updateBook id u st = (getBookById (IdNumber id) st, st).
Proof.
  intros Ht Ha Hy Hi. unfold updateBook, getBookById, find.
  destruct (list_find _ (books st)) as [[i old]|] eqn:Hfind; [|done].
  simpl. rewrite merge_falsy by done.
  apply list_find_Some in Hfind as (Hlookup & _).
  by rewrite list_insert_id, state_eta.
Qed.

Lemma updateBook_falsy_payload_witness :
  updateBook 105 (IBookUpdateData.mk (Some EmptyString) None (Some 0) None) initial =
    (Some (IBook.mk 105 "Dune" "Frank Herbert" 1965 "978-0441172719" true), initial).
Proof.
  apply (updateBook_falsy_payload initial 105
           (IBookUpdateData.mk (Some EmptyString) None (Some 0) None)).
  - right. reflexivity.
  - left. reflexivity.
  - right. reflexivity.
  - left. reflexivity.
Defined.

(** X6. In every state whatever, [deleteBook] answers [true] exactly
    when some record has the id. The store it leaves is the store of
    before without the records of that id: every other record stays, as
    many times as it was there and in the same order, so that the
    records taken out and the records left are together a permutation of
    the store of before. After it no record has the id, every other id
    is found exactly as before, and the counter is as before. *)
Theorem deleteBook_effect (st : state) (id : Z) :
  let st' := snd (deleteBook id st) in
  (fst (deleteBook id st) = true ↔ ∃ b, b ∈ books st ∧ IBook.id b = id) ∧
  getBookById (IdNumber id) st' = None ∧
  (∀ b, b ∈ books st' ↔ b ∈ books st ∧ IBook.id b ≠ id) ∧
  (∀ n, n ≠ id → getBookById (IdNumber n) st' = getBookById (IdNumber n) st) ∧
  books st' `sublist_of` books st ∧
  nextBookId st' = nextBookId st ∧
  books st' = filter (λ b, IBook.id b ≠ id) (books st) ∧
  filter (λ b, IBook.id b = id) (books st) ++ books st' ≡ₚ books st ∧
  (length (books st') + length (filter (λ b, IBook.id b = id) (books st)) =
     length (books st))%nat.
Proof.
  intros st'. subst st'. unfold getBookById. simpl.
  assert (filter (λ b, IBook.id b = id) (books st) ++
          filter (λ b, IBook.id b ≠ id) (books st) ≡ₚ books st) as Hperm.
  { apply (filter_app_complement (λ b, IBook.id b = id)). }
  split; [|split; [apply find_filter_same |
    split; [|split; [|split; [|split; [done|split; [done|split; [done|]]]]]]]].
  - rewrite bool_decide_eq_true. split.
    + intros Hlen.
      destruct (decide (Forall (λ b, IBook.id b ≠ id) (books st))) as [Hall|Hnot].
      * rewrite Forall_forall in Hall.
        rewrite (Filtering.filter_all_in _ (books st)) in Hlen by done. lia.
      * apply not_Forall_Exists in Hnot; [|apply _].
        apply Exists_exists in Hnot as (b & Hb & Hid).
        exists b. split; [done|]. by apply dec_stable.
    + intros (b & Hb & Hid).
      apply (length_filter_lt _ _ b); [done|]. intros Hne. by apply Hne.
  - intros b. rewrite list_elem_of_filter. tauto.
  - intros n Hn. by apply find_filter_other.
  - apply sublist_filter.
  - apply Permutation_length in Hperm. rewrite length_app in Hperm. lia.
Qed.

(** X7. Deleting the same id a second time answers [false] and changes
    nothing more. *)
Theorem deleteBook_twice (st : state) (id : Z) :
  deleteBook id (snd (deleteBook id st)) = (false, snd (deleteBook id st)).
Proof.
  apply deleteBook_absent. simpl. intros b Hb.
  by apply list_elem_of_filter in Hb as [Hb _].
Qed.

(** X8. In every state of the running service, deleting the record a
    create has just added gives back the store of before the create,
    while the counter stays one above: the id is not handed out again. *)
Theorem addBook_then_deleteBook (st : state) (data : IBookCreationData.t) :
  reachable st →
  deleteBook (IBook.id (fst (addBook data st))) (snd (addBook data st)) =
    (true, mkState (books st) (nextBookId st + 1)).
Proof.
  intros Hst. destruct (Invariant.reachable_invariant st Hst) as [_ Hbelow].
  rewrite (deleteBook_split _ _ (books st) (fst (addBook data st)) []).
  - by rewrite app_nil_r.
  - done.
  - done.
  - rewrite app_nil_r. simpl. intros b Hb.
    unfold belowCounter in Hbelow. rewrite Forall_forall in Hbelow.
    specialize (Hbelow b Hb). lia.
Qed.

Lemma addBook_then_deleteBook_witness :
  let data := IBookCreationData.mk "Emma" "Jane Austen" 1815 "978-0141439587" in
  deleteBook 121 (snd (addBook data initial)) = (true, mkState preloaded 122).
Proof.
  apply (addBook_then_deleteBook initial
           (IBookCreationData.mk "Emma" "Jane Austen" 1815 "978-0141439587")).
  apply reachable_initial.
Defined.

End Composition.

(** ** The pages of a query *)

Module Pages.
Import BookRepository Spec.

Lemma filteredBooks_sublist f bs : filteredBooks f bs `sublist_of` bs.
Proof.
  rewrite Filtering.filteredBooks_pipeline.
  repeat (etrans; [apply sublist_filter; apply _|]). done.
Qed.

Lemma slice_sublist {A} (l : list A) a b : Js.slice l a b `sublist_of` l.
Proof.
  unfold Js.slice. etrans; [apply sublist_take | apply sublist_drop].
Qed.

Lemma slice_length {A} (l : list A) a b :
  0 ≤ a → a ≤ b →
  Z.of_nat (length (Js.slice l a b)) =
    Z.min (b - a) (Z.max 0 (Z.of_nat (length l) - a)).
Proof.
  intros Ha Hab. rewrite JsFacts.slice_nonneg by done.
  rewrite length_take, length_drop. lia.
Qed.

(** The first [k] pages, one after the other, are the first [k * n]
    elements. *)
Lemma pages_concat {A} (l : list A) (n : Z) (k : nat) :
  1 ≤ n →
  concat ((λ page, Js.slice l ((page - 1) * n) ((page - 1) * n + n))
            <$> seqZ 1 (Z.of_nat k)) =
  take (Z.to_nat (Z.of_nat k * n)) l.
Proof.
  intros Hn. induction k as [|k IH].
  - by rewrite seqZ_nil by lia.
  - rewrite seqZ_S, fmap_app, concat_app, IH. simpl. rewrite app_nil_r.
    rewrite JsFacts.slice_nonneg by nia.
    replace (Z.to_nat ((1 + Z.of_nat k - 1) * n)) with (Z.to_nat (Z.of_nat k * n))
      by (f_equal; lia).
    replace (Z.to_nat ((1 + Z.of_nat k - 1) * n + n - (1 + Z.of_nat k - 1) * n))
      with (Z.to_nat n) by lia.
    rewrite take_take_drop. f_equal. nia.
Qed.

(** X9. For a page number of at least 1 and a page size of at least 1, a
    page never holds more than [pageSize] books; every page before
    [totalPages] is full; page [totalPages], when there is one, holds
    the rest, at least one book; every page after it is empty. *)
Theorem page_lengths (filters : Filters.t) (page pageSize : Z) (st : state) :
  1 ≤ page → 1 ≤ pageSize →
  let r := getBooksPaginatedAndFiltered filters page pageSize st in
  let n := Z.of_nat (length (IBookResponse.books r)) in
  let totalItems := IPaginationResult.totalItems (IBookResponse.pagination r) in
  let totalPages := IPaginationResult.totalPages (IBookResponse.pagination r) in
  n ≤ pageSize ∧
  (page < totalPages → n = pageSize) ∧
  (page = totalPages → 1 ≤ n ∧ n = totalItems - (page - 1) * pageSize) ∧
  (totalPages < page → n = 0).
Proof.
  intros Hpage Hsize r n totalItems totalPages.
  assert (n = Z.min pageSize (Z.max 0 (totalItems - (page - 1) * pageSize))) as Hn.
  { subst n r totalItems. unfold getBooksPaginatedAndFiltered. simpl.
    rewrite slice_length by nia. f_equal. lia. }
  pose proof (JsFacts.ceilDiv_spec totalItems pageSize ltac:(lia)) as Hceil.
  change (Js.ceilDiv totalItems pageSize) with totalPages in Hceil.
  repeat split; nia.
Qed.

Lemma page_lengths_witness :
  let r := getBooksPaginatedAndFiltered Filters.none 3 8 initial in
  Z.of_nat (length (IBookResponse.books r)) = 20 - (3 - 1) * 8.
Proof.
  destruct (page_lengths Filters.none 3 8 initial ltac:(lia) ltac:(lia))
    as (_ & _ & Hlast & _).
  apply Hlast. reflexivity.
Defined.

(** X10. For a page size of at least 1, the pages [1 .. totalPages],
    one after the other, are the filtered list: every record that passes
    the filters is on exactly one page, in the order of the store. *)
Theorem pages_cover (filters : Filters.t) (pageSize : Z) (st : state) :
  1 ≤ pageSize →
  let totalPages :=
    IPaginationResult.totalPages
      (IBookResponse.pagination (getBooksPaginatedAndFiltered filters 1 pageSize st)) in
  concat ((λ page, IBookResponse.books
                     (getBooksPaginatedAndFiltered filters page pageSize st))
            <$> seqZ 1 totalPages) =
  filteredBooks filters (books st).
Proof.
  intros Hsize totalPages. subst totalPages. simpl.
  set (l := filteredBooks filters (books st)).
  pose proof (JsFacts.ceilDiv_spec (Z.of_nat (length l)) pageSize ltac:(lia)) as Hceil.
  set (k := Js.ceilDiv (Z.of_nat (length l)) pageSize) in *.
  assert (0 ≤ k) as Hk by nia.
  rewrite <- (Z2Nat.id k Hk).
  unfold getBooksPaginatedAndFiltered. simpl. fold l.
  rewrite (pages_concat l pageSize (Z.to_nat k) Hsize).
  apply take_ge. nia.
Qed.

Lemma pages_cover_witness :
  concat ((λ page, IBookResponse.books
                     (getBooksPaginatedAndFiltered Filters.none page 8 initial))
            <$> seqZ 1 3) = preloaded.
Proof. apply (pages_cover Filters.none 8 initial). lia. Defined.

(** X11. Whatever the filters, the page number and the page size are
    (zero and negative numbers too), the books of the answer are records
    of the store, in the order of the store, none of them twice over. *)
Theorem page_is_sublist (filters : Filters.t) (page pageSize : Z) (st : state) :
  IBookResponse.books (getBooksPaginatedAndFiltered filters page pageSize st)
    `sublist_of` books st.
Proof.
  unfold getBooksPaginatedAndFiltered. simpl.
  etrans; [apply slice_sublist | apply filteredBooks_sublist].
Qed.

(** X12. A page number below 0 counts from the end of the filtered
    list: with [len] filtered records and a page size of at least 1, the
    answer holds the records at the positions
    [len + (page-1)*pageSize ≤ i < len + page*pageSize]. *)
Theorem negative_page (filters : Filters.t) (page pageSize : Z) (st : state) :
  page < 0 → 1 ≤ pageSize →
  let filtered := filteredBooks filters (books st) in
  let len := Z.of_nat (length filtered) in
  IBookResponse.books (getBooksPaginatedAndFiltered filters page pageSize st) =
  indexRange filtered (len + (page - 1) * pageSize) (len + page * pageSize).
Proof.
  intros Hpage Hsize filtered len.
  unfold getBooksPaginatedAndFiltered. simpl. fold filtered.
  unfold Js.slice, Js.relativeIndex. fold len.
  destruct (Z.ltb_spec ((page - 1) * pageSize) 0); [|nia].
  destruct (Z.ltb_spec ((page - 1) * pageSize + pageSize) 0); [|nia].
  unfold indexRange.
  destruct (decide (0 ≤ len + (page - 1) * pageSize)) as [Hin|Hout].
  - rewrite RangeFacts.rangeFrom_ahead by lia.
    f_equal; [|f_equal]; lia.
  - rewrite RangeFacts.rangeFrom_reached by lia.
    replace (Z.to_nat (Z.max (len + (page - 1) * pageSize) 0)) with 0%nat by lia.
    rewrite drop_0. f_equal. lia.
Qed.

Lemma negative_page_witness :
  IBook.id <$> IBookResponse.books
    (getBooksPaginatedAndFiltered Filters.none (-1) 2 initial) =
  IBook.id <$> indexRange preloaded 16 18.
Proof.
  rewrite (negative_page Filters.none (-1) 2 initial) by lia.
  reflexivity.
Defined.

End Pages.

(** ** What the filters find *)

Module Search.
Import BookRepository Spec.

Lemma filteredBooks_selected f bs :
  filteredBooks f bs = filter (selected f) bs.
Proof.
  rewrite Filtering.filteredBooks_pipeline, !list_filter_filter.
  apply list_filter_iff. intros b. unfold selected. tauto.
Qed.


Lemma sublist_filter_impl {A} (P Q : A → Prop)
    `{∀ x, Decision (P x)} `{∀ x, Decision (Q x)} (l : list A) :
  (∀ x, P x → Q x) → filter P l `sublist_of` filter Q l.
Proof.
  intros HPQ. induction l as [|x l IH]; [done|].
  destruct (decide (P x)) as [HP|HP].
  - rewrite !filter_cons_True by auto. by constructor.
  - rewrite (filter_cons_False P) by done.
    destruct (decide (Q x)).
    + rewrite filter_cons_True by done. by constructor.
    + by rewrite filter_cons_False by done.
Qed.





(** X14. Taking filters away never loses a record: when every member of
    [weaker] is either undefined or the member of [f], the records [f]
    keeps are among the records [weaker] keeps, in the same order. *)
Theorem fewer_filters_keep_more (f weaker : Filters.t) (bs : list IBook.t) :
  (Filters.title weaker = None ∨ Filters.title weaker = Filters.title f) →
  (Filters.author weaker = None ∨ Filters.author weaker = Filters.author f) →
  (Filters.year weaker = None ∨ Filters.year weaker = Filters.year f) →
  (Filters.isBorrowed weaker = None ∨ Filters.isBorrowed weaker = Filters.isBorrowed f) →
  filteredBooks f bs `sublist_of` filteredBooks weaker bs.
Proof.
  intros Ht Ha Hy Hb. rewrite !filteredBooks_selected.
  apply sublist_filter_impl. intros b (Hbt & Hba & Hby & Hbb).
  unfold selected, titleCond, authorCond, yearCondTruthy, borrowedCond in *.
  repeat split.
  - by destruct Ht as [-> | ->].
  - by destruct Ha as [-> | ->].
  - by destruct Hy as [-> | ->].
  - by destruct Hb as [-> | ->].
Qed.

Lemma fewer_filters_keep_more_witness :
  filteredBooks (Filters.mk None (Some "tolkien") None (Some "true")) preloaded
    `sublist_of` filteredBooks (Filters.mk None (Some "tolkien") None None) preloaded.
Proof.
  apply (fewer_filters_keep_more
           (Filters.mk None (Some "tolkien") None (Some "true"))
           (Filters.mk None (Some "tolkien") None None) preloaded).
  - left. reflexivity.
  - right. reflexivity.
  - left. reflexivity.
  - left. reflexivity.
Defined.

End Search.

(** ** What [parseInt] lets through *)

Module Parsing.
Import Js Spec.

Lemma digits_stops rest : stops rest → digits rest = Nil.
Proof.
  intros Hrest. destruct rest as [|c s]; [done|].
  simpl. by rewrite (Hrest c s eq_refl).
Qed.

Lemma digits_numeral_app d rest :
  stops rest → digits (NilEmpty.string_of_uint d +:+ rest) = d.
Proof.
  intros Hrest. induction d; simpl;
    [by apply digits_stops | by rewrite IHd ..].
Qed.

Lemma parseDigits_numeral_app sign p rest :
  stops rest →
  parseDigits sign (NilEmpty.string_of_uint (Pos.to_uint p) +:+ rest) =
    Some (sign * Z.pos p).
Proof.
  intros Hrest. unfold parseDigits. rewrite digits_numeral_app by done.
  pose proof (DecimalPos.Unsigned.to_uint_nonnil p) as Hnil.
  pose proof (DecimalPos.Unsigned.of_to p) as Hval.
  unfold Z.of_uint. destruct (Pos.to_uint p); [done | by rewrite Hval ..].
Qed.

Lemma trimStart_app ws s :
  blank ws → trimStart (ws +:+ s) = trimStart s.
Proof.
  unfold blank. induction ws as [|c ws IH]; [done|]. simpl.
  destruct (isWhiteSpace c); [done | discriminate].
Qed.

Lemma parseInt_numeral_app n rest :
  stops rest → parseInt (String_ n +:+ rest) = Some n.
Proof.
  intros Hrest. unfold String_. destruct n as [|p|p]; simpl.
  - unfold parseInt, parseDigits. simpl. by rewrite digits_stops.
  - rewrite JsFacts.numeral_nonnil.
    destruct (JsFacts.string_of_uint_head (Pos.to_uint p)) as (c & s & Hs & Hc);
      [apply DecimalPos.Unsigned.to_uint_nonnil|].
    rewrite Hs. change (String c s +:+ rest) with (String c (s +:+ rest)).
    rewrite (JsFacts.parseInt_digit _ _ Hc).
    change (String c (s +:+ rest)) with (String c s +:+ rest).
    rewrite <- Hs, parseDigits_numeral_app by done. f_equal; lia.
  - rewrite JsFacts.numeral_nonnil. unfold parseInt. simpl.
    rewrite parseDigits_numeral_app by done. f_equal; lia.
Qed.

(** [parseInt] reads an integer out of its numeral also when white space
    comes before it and when anything that does not begin with a digit
    comes after it. *)
Lemma parseInt_padded ws n rest :
  blank ws → stops rest →
  parseInt (ws +:+ String_ n +:+ rest) = Some n.
Proof.
  intros Hws Hrest. rewrite <- (parseInt_numeral_app n rest Hrest).
  unfold parseInt. by rewrite trimStart_app.
Qed.

End Parsing.

(** ** Requests, one after the other *)

Module Requests.
Import BookRepository Service Spec RepositoryFacts.
Import App.

Lemma reachable_counter st : reachable st → 121 ≤ nextBookId st.
Proof.
  induction 1 as [|st o _ IH]; [done|].
  pose proof (Invariant.counter_step st o). lia.
Qed.

Lemma atLeastOne_padded ws n rest :
  blank ws → stops rest → 1 ≤ n →
  atLeastOne (Js.parseInt (ws +:+ Js.String_ n +:+ rest)) = Some n.
Proof.
  intros Hws Hrest Hn. rewrite Parsing.parseInt_padded by done. simpl.
  destruct (Z.ltb_spec n 1); [lia | done].
Qed.

(** X15. An id parameter is read the way [parseInt] reads: white space
    before the numeral and anything after it that does not begin with a
    digit are ignored. For [n ≥ 1], GET on such a parameter answers with
    the record of id [n] (404 when there is none), and DELETE deletes
    the record of id [n]. *)
Theorem id_with_padding (st : state) (ws rest : string) (n : Z) :
  blank ws → stops rest → 1 ≤ n →
  let id := ws +:+ Js.String_ n +:+ rest in
  getBook id st =
    match find n (books st) with
    | Some b => mkResponse 200 (Book b)
    | None => notFound id
    end ∧
  deleteBook id st =
    (if fst (BookRepository.deleteBook n st) then mkResponse 204 Empty
     else notFound id,
     snd (BookRepository.deleteBook n st)).
Proof.
  intros Hws Hrest Hn id. subst id. split.
  - unfold getBook, getBookById.
    by rewrite atLeastOne_padded, Parsing.parseInt_padded by done.
  - unfold deleteBook. rewrite atLeastOne_padded by done.
    by destruct (BookRepository.deleteBook n st) as [[|] st'].
Qed.

Lemma id_with_padding_witness :
  getBook " 104abc" initial =
    mkResponse 200
      (Book (IBook.mk 104 "The Hobbit" "J.R.R. Tolkien" 1937 "978-0618260300" false)).
Proof.
  apply (id_with_padding initial " " "abc" 104).
  - reflexivity.
  - intros c s Hcs. injection Hcs as <- _. reflexivity.
  - lia.
Defined.

(** X16. The list route reads [page] and [size] with [parseInt], a
    missing or empty one standing for 1 and for 10. When both read as
    integers of at least 1 and at most 2^53 - 1 it answers 200 with the
    page the repository returns for them; when [page] does not read as
    an integer of at least 1, or [size] does not, it answers 400. *)
Theorem getBooks_result (query : IBookQuery.t) (st : state) :
  let page := Js.orString (IBookQuery.page query) "1" in
  let size := Js.orString (IBookQuery.size query) "10" in
  let filters := Filters.mk (IBookQuery.title query) (IBookQuery.author query)
                   (IBookQuery.year query) (IBookQuery.isBorrowed query) in
  (∀ pageNum pageSize,
     validId page pageNum → pageNum ≤ maxSafeInteger →
     validId size pageSize → pageSize ≤ maxSafeInteger →
     getBooks query st =
       mkResponse 200 (Page (getBooksPaginatedAndFiltered filters pageNum pageSize st))) ∧
  ((¬ ∃ n, validId page n) → status (getBooks query st) = 400) ∧
  ((¬ ∃ n, validId size n) → status (getBooks query st) = 400) ∧
  (falsyString (IBookQuery.page query) → falsyString (IBookQuery.size query) →
     getBooks query st =
       mkResponse 200 (Page (getBooksPaginatedAndFiltered filters 1 10 st))).
Proof.
  intros page size filters.
  assert (∀ pageNum pageSize, validId page pageNum → validId size pageSize →
     getBooks query st =
       mkResponse 200 (Page (getBooksPaginatedAndFiltered filters pageNum pageSize st)))
    as Hok.
  { intros pageNum pageSize Hpage Hsize.
    apply Routes.atLeastOne_Some in Hpage, Hsize.
    unfold getBooks. fold page size. by rewrite Hpage, Hsize. }
  split; [intros pageNum pageSize Hpage _ Hsize _; by apply Hok|].
  split; [|split].
  - intros Hno. apply Routes.atLeastOne_None in Hno.
    unfold getBooks. fold page. by rewrite Hno.
  - intros Hno. apply Routes.atLeastOne_None in Hno.
    unfold getBooks. fold page size. rewrite Hno.
    by destruct (atLeastOne (Js.parseInt page)).
  - intros Hpage Hsize. apply Hok.
    + subst page. rewrite Mutation.orString_falsy by done.
      split; [reflexivity | lia].
    + subst size. rewrite Mutation.orString_falsy by done.
      split; [reflexivity | lia].
Qed.

Lemma getBooks_result_witness :
  let query := IBookQuery.mk None (Some "tolkien") None None (Some "2") (Some "2") in
  getBooks query initial =
    mkResponse 200
      (Page (getBooksPaginatedAndFiltered
               (Filters.mk None (Some "tolkien") None None) 2 2 initial)).
Proof.
  apply (getBooks_result
           (IBookQuery.mk None (Some "tolkien") None None (Some "2") (Some "2"))
           initial).
  - split; [reflexivity | lia].
  - unfold maxSafeInteger. lia.
  - split; [reflexivity | lia].
  - unfold maxSafeInteger. lia.
Defined.

(** X17. POST answers 400 and leaves the state as it was when the
    title, the author or the isbn is missing or empty. Otherwise it
    answers 201 with the record [addBook] makes of the body, and, in
    every state of the running service, a GET on the numeral of the id of
    that record then answers 200 with the same record. *)
Theorem postBook_result (body : creationBody) (st : state) :
  (falsyString (bodyTitle body) ∨ falsyString (bodyAuthor body) ∨
   falsyString (bodyIsbn body) →
   status (fst (postBook body st)) = 400 ∧ snd (postBook body st) = st) ∧
  (∀ title author isbn,
     bodyTitle body = Some title → title ≠ EmptyString →
     bodyAuthor body = Some author → author ≠ EmptyString →
     bodyIsbn body = Some isbn → isbn ≠ EmptyString →
     let data := IBookCreationData.mk title author (bodyYearOfRelease body) isbn in
     let new := fst (addBook data st) in
     postBook body st = (mkResponse 201 (Book new), snd (addBook data st)) ∧
     (reachable st →
      getBook (Js.String_ (IBook.id new)) (snd (postBook body st)) =
        mkResponse 200 (Book new))).
Proof.
  split.
  - unfold postBook.
    intros [[-> | ->] | [[-> | ->] | [-> | ->]]]; simpl;
      repeat (destruct (Js.truthyString _)); done.
  - intros title author isbn Htitle Ht Hauthor Ha Hisbn Hi data new.
    assert (postBook body st = (mkResponse 201 (Book new), snd (addBook data st)))
      as Hpost.
    { subst data new. unfold postBook. rewrite Htitle, Hauthor, Hisbn.
      destruct title, author, isbn; done. }
    split; [done|]. intros Hst. rewrite Hpost. simpl.
    destruct (Invariant.reachable_invariant st Hst) as [_ Hbelow].
    pose proof (reachable_counter st Hst) as Hcounter.
    unfold getBook, getBookById. rewrite JsFacts.parseInt_String_. simpl.
    destruct (Z.ltb_spec (nextBookId st) 1); [lia|].
    rewrite Composition.find_app_r by by apply Composition.find_counter.
    rewrite Composition.find_cons. simpl. by rewrite decide_True.
Qed.

Lemma postBook_result_witness :
  let body := mkCreationBody (Some "Emma") (Some "Jane Austen") 1815 (Some "978-0141439587") in
  getBook "121" (snd (postBook body initial)) =
    mkResponse 200 (Book (IBook.mk 121 "Emma" "Jane Austen" 1815 "978-0141439587" false)).
Proof.
  destruct (postBook_result
              (mkCreationBody (Some "Emma") (Some "Jane Austen") 1815 (Some "978-0141439587"))
              initial) as [_ Hcreated].
  destruct (Hcreated "Emma" "Jane Austen" "978-0141439587"
              eq_refl ltac:(discriminate) eq_refl ltac:(discriminate)
              eq_refl ltac:(discriminate))
    as [_ Hget].
  apply Hget. apply reachable_initial.
Defined.

(** The three ways a PUT can go. *)
Lemma putBook_cases id u st :
  (status (fst (putBook id u st)) = 400 ∧ snd (putBook id u st) = st) ∨
  (∃ n, validId id n ∧ keys u ≠ [] ∧ find n (books st) = None ∧
        putBook id u st = (notFound id, st)) ∨
  (∃ n b, validId id n ∧ keys u ≠ [] ∧ find n (books st) = Some b ∧
          putBook id u st = (mkResponse 200 (Book (merge b u)), snd (updateBook n u st))).
Proof.
  unfold putBook.
  destruct (atLeastOne (Js.parseInt id)) as [n|] eqn:Hid; [|by left].
  apply Routes.atLeastOne_Some in Hid.
  case_bool_decide as Hkeys; [by left|]. rewrite Routes.keys_nil in Hkeys.
  right. destruct (find n (books st)) as [b|] eqn:Hfind.
  - right. exists n, b. unfold find in Hfind.
    destruct (list_find _ (books st)) as [[i x]|] eqn:Hlf; [|done].
    injection Hfind as ->.
    rewrite (updateBook_found _ _ _ _ _ Hlf). unfold find. by rewrite Hlf.
  - left. exists n. pose proof Hfind as Habsent. rewrite find_None in Habsent.
    by rewrite updateBook_absent.
Qed.

(** The three ways a DELETE can go. *)
Lemma deleteBook_cases id st :
  (status (fst (deleteBook id st)) = 400 ∧ snd (deleteBook id st) = st) ∨
  (∃ n, validId id n ∧ find n (books st) = None ∧
        deleteBook id st = (notFound id, st)) ∨
  (∃ n b, validId id n ∧ find n (books st) = Some b ∧
          deleteBook id st =
            (mkResponse 204 Empty, snd (BookRepository.deleteBook n st))).
Proof.
  unfold deleteBook.
  destruct (atLeastOne (Js.parseInt id)) as [n|] eqn:Hid; [|by left].
  apply Routes.atLeastOne_Some in Hid.
  right. destruct (find n (books st)) as [b|] eqn:Hfind.
  - right. exists n, b. split; [done|]. split; [done|].
    apply find_Some in Hfind as [Hb Hn].
    assert (fst (BookRepository.deleteBook n st) = true) as Htrue.
    { apply bool_decide_eq_true_2.
      apply (length_filter_lt _ _ b); [done|]. intros Hne. by apply Hne. }
    by destruct (BookRepository.deleteBook n st) as [[|] st'].
  - left. exists n. pose proof Hfind as Habsent. rewrite find_None in Habsent.
    by rewrite deleteBook_absent.
Qed.

(** X18. When a PUT is answered 200 with a record, a GET on the same
    id parameter is then answered 200 with that record. *)
Theorem putBook_then_getBook (st st' : state) (id : string)
    (u : IBookUpdateData.t) (b : IBook.t) :
  putBook id u st = (mkResponse 200 (Book b), st') →
  getBook id st' = mkResponse 200 (Book b).
Proof.
  intros Hput.
  destruct (putBook_cases id u st)
    as [[H400 _] | [(n & _ & _ & _ & H404) | (n & old & Hid & _ & Hfind & H200)]].
  - by rewrite Hput in H400.
  - by rewrite Hput in H404.
  - rewrite Hput in H200. injection H200 as -> ->.
    pose proof Hid as [Hparse _]. apply Routes.atLeastOne_Some in Hid.
    unfold getBook, getBookById. rewrite Hid, Hparse.
    unfold find in Hfind.
    destruct (list_find _ (books st)) as [[i x]|] eqn:Hlf; [|done].
    injection Hfind as ->.
    pose proof Hlf as Hold. apply list_find_Some in Hold as (_ & Hold & _).
    rewrite (updateBook_found _ _ _ _ _ Hlf). simpl.
    rewrite (Composition.find_insert_first n n _ i old) by done.
    by rewrite decide_True.
Qed.

Lemma putBook_then_getBook_witness :
  let u := IBookUpdateData.mk (Some "Dune Messiah") None None None in
  getBook "105" (snd (putBook "105" u initial)) =
    mkResponse 200
      (Book (IBook.mk 105 "Dune Messiah" "Frank Herbert" 1965 "978-0441172719" true)).
Proof.
  apply (putBook_then_getBook initial _ "105"
           (IBookUpdateData.mk (Some "Dune Messiah") None None None)).
  reflexivity.
Defined.

(** X19. After a DELETE on a valid id parameter, whatever it answered,
    a GET on that parameter is answered 404, and a second DELETE is
    answered 404 and changes nothing. *)
Theorem deleteBook_then_404 (st : state) (id : string) (n : Z) :
  validId id n →
  let st' := snd (deleteBook id st) in
  getBook id st' = notFound id ∧
  deleteBook id st' = (notFound id, st').
Proof.
  intros Hid st'.
  assert (find n (books st') = None) as Hgone.
  { subst st'.
    destruct (deleteBook_cases id st)
      as [[H400 _] | [(m & Hm & Hfind & ->) | (m & b & Hm & _ & ->)]].
    - exfalso. pose proof Hid as Hid'. apply Routes.atLeastOne_Some in Hid'.
      unfold deleteBook in H400. rewrite Hid' in H400.
      by destruct (BookRepository.deleteBook n st) as [[|] st1].
    - destruct Hid as [Hparse _], Hm as [Hparse' _].
      assert (m = n) as -> by congruence. done.
    - destruct Hid as [Hparse _], Hm as [Hparse' _].
      assert (m = n) as -> by congruence.
      apply Composition.find_filter_same. }
  pose proof Hid as [Hparse _]. apply Routes.atLeastOne_Some in Hid.
  split.
  - unfold getBook, getBookById. by rewrite Hid, Hparse, Hgone.
  - unfold deleteBook. rewrite Hid. rewrite find_None in Hgone.
    by rewrite deleteBook_absent.
Qed.

Lemma deleteBook_then_404_witness :
  getBook "105" (snd (deleteBook "105" initial)) =
    mkResponse 404 (Error "Book with ID 105 not found").
Proof.
  apply (deleteBook_then_404 initial "105" 105).
  split; [reflexivity | lia].
Defined.

(** X20. A request that is answered 400 or 404 leaves the state of the
    repository exactly as it was. *)
Theorem refused_requests_change_nothing (req : request) (st : state) :
  status (fst (handle req st)) = 400 ∨ status (fst (handle req st)) = 404 →
  snd (handle req st) = st.
Proof.
  destruct req as [query|id|body|id u|id]; simpl; [done | done | ..].
  - unfold postBook.
    repeat (destruct (Js.truthyString _)); simpl; [|done ..].
    intros [H|H]; discriminate H.
  - destruct (putBook_cases id u st)
      as [[_ Hst] | [(n & _ & _ & _ & ->) | (n & b & _ & _ & _ & ->)]];
      [done | done |].
    simpl. intros [H|H]; discriminate H.
  - destruct (deleteBook_cases id st)
      as [[_ Hst] | [(n & _ & _ & ->) | (n & b & _ & _ & ->)]];
      [done | done |].
    simpl. intros [H|H]; discriminate H.
Qed.

Lemma refused_requests_change_nothing_witness :
  snd (handle (PutBook "999" (IBookUpdateData.mk (Some "Emma") None None None)) initial) =
    initial.
Proof.
  apply (refused_requests_change_nothing
           (PutBook "999" (IBookUpdateData.mk (Some "Emma") None None None)) initial).
  right. reflexivity.
Defined.

(** X21. Requests keep the service inside its reachable states: after
    any request the ids of the store are still unique and all below the
    counter. *)
Theorem requests_keep_invariant (req : request) (st : state) :
  reachable st →
  reachable (snd (handle req st)) ∧
  uniqueIds (snd (handle req st)) ∧
  belowCounter (snd (handle req st)).
Proof.
  intros Hst.
  assert (reachable (snd (handle req st))) as Hnext.
  { destruct req as [query|id|body|id u|id]; simpl; [done | done | ..].
    - unfold postBook.
      destruct (Js.truthyString (bodyTitle body)) as [t|]; [|done].
      destruct (Js.truthyString (bodyAuthor body)) as [a|]; [|done].
      destruct (Js.truthyString (bodyIsbn body)) as [i|]; [|done].
      apply (reachable_step st
               (Create (IBookCreationData.mk t a (bodyYearOfRelease body) i)) Hst).
    - destruct (putBook_cases id u st)
        as [[_ ->] | [(n & _ & _ & _ & ->) | (n & b & _ & _ & _ & ->)]];
        [done | done |].
      apply (reachable_step st (Update n u) Hst).
    - destruct (deleteBook_cases id st)
        as [[_ ->] | [(n & _ & _ & ->) | (n & b & _ & _ & ->)]];
        [done | done |].
      apply (reachable_step st (Delete n) Hst). }
  split; [done|]. by apply Invariant.reachable_invariant.
Qed.

Lemma requests_keep_invariant_witness :
  uniqueIds (snd (handle (DeleteBook "105") initial)).
Proof.
  apply (requests_keep_invariant (DeleteBook "105") initial).
  apply reachable_initial.
Defined.

(** X22. The guard of PUT against an empty body looks at the keys, not
    at the values: a body that has a member, all of whose members are
    falsy, is let through, and on a valid id with a record it is
    answered 200 with the record as it stands, the state being as it
    was. *)
Theorem putBook_falsy_body (st : state) (id : string) (n : Z)
    (u : IBookUpdateData.t) (b : IBook.t) :
  validId id n →
  keys u ≠ [] →
  falsyString (IBookUpdateData.title u) →
  falsyString (IBookUpdateData.author u) →
  falsyNumber (IBookUpdateData.yearOfRelease u) →
  falsyString (IBookUpdateData.isbn u) →
  find n (books st) = Some b →
  putBook id u st = (mkResponse 200 (Book b), st).
Proof.
  intros Hid Hkeys Ht Ha Hy Hi Hfind.
  apply Routes.atLeastOne_Some in Hid.
  unfold putBook. rewrite Hid.
  rewrite bool_decide_eq_false_2 by (by rewrite Routes.keys_nil).
  unfold find in Hfind.
  destruct (list_find _ (books st)) as [[i x]|] eqn:Hlf; [|done].
  injection Hfind as ->.
  rewrite (updateBook_found _ _ _ _ _ Hlf).
  rewrite Composition.merge_falsy by done.
  apply list_find_Some in Hlf as (Hlookup & _).
  by rewrite list_insert_id, state_eta.
Qed.

Lemma putBook_falsy_body_witness :
  putBook "105" (IBookUpdateData.mk (Some EmptyString) None None None) initial =
    (mkResponse 200
       (Book (IBook.mk 105 "Dune" "Frank Herbert" 1965 "978-0441172719" true)),
     initial).
Proof.
  apply (putBook_falsy_body initial "105" 105
           (IBookUpdateData.mk (Some EmptyString) None None None)).
  - split; [reflexivity | lia].
  - discriminate.
  - right. reflexivity.
  - left. reflexivity.
  - left. reflexivity.
  - left. reflexivity.
  - reflexivity.
Defined.

End Requests.

(** ** What no operation and no request can do *)

Module Never.
Import BookRepository Service Spec RepositoryFacts.
Import App.

(** A property of single records that the three mutating functions keep
    on the whole store, when the record a create makes has it and a merge
    keeps it. *)
Lemma step_Forall (P : IBook.t → Prop) st o :
  (∀ data, o = Create data → P (fst (createBook data st))) →
  (∀ old u, P old → P (merge old u)) →
  Forall P (books st) → Forall P (books (step st o)).
Proof.
  intros Hcreate Hmerge Hall. destruct o as [data|id u|id]; simpl.
  - apply Forall_app. split; [done|]. apply Forall_singleton. by apply Hcreate.
  - unfold updateBook.
    destruct (list_find _ (books st)) as [[i old]|] eqn:Hfind; [|done].
    apply list_find_Some in Hfind as (Hi & _). simpl.
    apply Forall_insert; [done|]. apply Hmerge.
    rewrite Forall_forall in Hall. apply Hall. by eapply list_elem_of_lookup_2.
  - rewrite Forall_forall in *. intros b Hb.
    apply list_elem_of_filter in Hb as [_ Hb]. by apply Hall.
Qed.

(** X23. No operation of the repository changes whether a book is
    borrowed: in every state of the running service, a record is borrowed
    exactly when the preloaded record of its id is, and a record with an
    id that was not preloaded is not borrowed. *)
Theorem borrowed_status_is_fixed (st : state) (b : IBook.t) :
  reachable st → b ∈ books st →
  IBook.isBorrowed b =
    match find (IBook.id b) preloaded with
    | Some b0 => IBook.isBorrowed b0
    | None => false
    end.
Proof.
  intros Hst. revert b. apply Forall_forall.
  induction Hst as [|st o Hst IH].
  - apply Forall_forall. intros b Hb.
    pose proof (find_unique initial b Invariant.initial_unique Hb) as Hfound.
    simpl in Hfound. simpl. by rewrite Hfound.
  - apply step_Forall; [| |done].
    + intros data _. simpl.
      pose proof (Requests.reachable_counter st Hst) as Hcounter.
      assert (find (nextBookId st) preloaded = None) as ->; [|done].
      apply find_None. intros b0 Hb0.
      pose proof Invariant.initial_below as Hbelow.
      unfold belowCounter in Hbelow. rewrite Forall_forall in Hbelow.
      specialize (Hbelow b0 Hb0). simpl in Hbelow. lia.
    + intros old u Hold. exact Hold.
Qed.

Lemma borrowed_status_is_fixed_witness :
  let st := run initial [Update 105 (IBookUpdateData.mk (Some "Dune Messiah") None None None)] in
  IBook.isBorrowed
    (IBook.mk 105 "Dune Messiah" "Frank Herbert" 1965 "978-0441172719" true) = true.
Proof.
  apply (borrowed_status_is_fixed
           (run initial [Update 105 (IBookUpdateData.mk (Some "Dune Messiah") None None None)])).
  - apply (Invariant.reachable_run initial). apply reachable_initial.
  - do 4 apply list_elem_of_further. apply list_elem_of_here.
Defined.

Lemma orString_nonempty o old :
  old ≠ EmptyString → Js.orString o old ≠ EmptyString.
Proof. by destruct o as [[|c s]|]. Qed.

Lemma truthyString_nonempty o s : Js.truthyString o = Some s → s ≠ EmptyString.
Proof. destruct o as [[|c t]|]; simpl; [done | | done]. by intros [= <-]. Qed.

(** X24. However many requests the service has answered, no record of
    the store has an empty title, an empty author or an empty isbn: POST
    turns such a body down, and PUT ignores an empty value. *)
Theorem required_fields_stay_filled (st : state) (b : IBook.t) :
  served st → b ∈ books st →
  IBook.title b ≠ EmptyString ∧ IBook.author b ≠ EmptyString ∧
  IBook.isbn b ≠ EmptyString.
Proof.
  intros Hst. revert b. apply Forall_forall.
  change (Forall filled (books st)).
  assert (∀ old u, filled old → filled (merge old u)) as Hmerge.
  { intros old u (Ht & Ha & Hi). repeat split; simpl; by apply orString_nonempty. }
  induction Hst as [|req st Hst IH].
  - unfold filled. simpl. repeat constructor; discriminate.
  - destruct req as [query|id|body|id u|id]; simpl; [done | done | ..].
    + unfold postBook.
      destruct (Js.truthyString (bodyTitle body)) as [t|] eqn:Ht; [|done].
      destruct (Js.truthyString (bodyAuthor body)) as [a|] eqn:Ha; [|done].
      destruct (Js.truthyString (bodyIsbn body)) as [i|] eqn:Hi; [|done].
      apply (step_Forall filled st
               (Create (IBookCreationData.mk t a (bodyYearOfRelease body) i)));
        [|done|done].
      intros data [= <-]. repeat split; simpl; by eapply truthyString_nonempty.
    + destruct (Requests.putBook_cases id u st)
        as [[_ ->] | [(n & _ & _ & _ & ->) | (n & b & _ & _ & _ & ->)]];
        [done | done |].
      by apply (step_Forall filled st (Update n u)).
    + destruct (Requests.deleteBook_cases id st)
        as [[_ ->] | [(n & _ & _ & ->) | (n & b & _ & _ & ->)]];
        [done | done |].
      by apply (step_Forall filled st (Delete n)).
Qed.

Lemma required_fields_stay_filled_witness :
  let st := snd (handle (PutBook "105" (IBookUpdateData.mk (Some EmptyString) None None None))
                   initial) in
  IBook.title (IBook.mk 105 "Dune" "Frank Herbert" 1965 "978-0441172719" true)
    ≠ EmptyString.
Proof.
  apply (required_fields_stay_filled
           (snd (handle (PutBook "105" (IBookUpdateData.mk (Some EmptyString) None None None))
                   initial))).
  - apply served_handle. apply served_initial.
  - do 4 apply list_elem_of_further. apply list_elem_of_here.
Defined.

End Never.
